(** * Lofi-24x7 audio pipeline: a shallow embedding of [process_audio.py]
      and [generate_noise.py]

    The development follows the Python source function by function.

    - [Str], [PurePath]: the [str] and [pathlib] operations with which the
      script builds file names ([str.replace], [Path(..) / name], [str],
      [.parent], [.stem], the order of paths), in their POSIX flavour.
    - The world outside the script: a file system (a finite map from
      paths to files, with the POSIX meaning of [os.rename]), FFmpeg as an
      oracle that decides for a command and a file system whether the
      command succeeds and what it writes, and a log of what the script
      prints and does.  Factors and volumes are binary64 numbers, as
      Python's [float].
    - [Pipeline]: [run_ffmpeg], the five stages, the clean-up and
      [process_single_file], in a monad of state and exceptions.
    - [Batch]: the music-folder loop of [main].
    - [Script], [Main], [GenerateNoise]: [check_ffmpeg], [main] of
      process_audio.py around the pipeline, and generate_noise.py with its
      two generators and its [main], as scripts that run in a session.
    - The vocabulary of the specification (jobs, stages, the state
      machine), a concrete engine, and then the facts: about file names,
      about the stages, and about whole runs. *)

From Stdlib Require Import Floats Ascii String.
From stdpp Require Import gmap strings list sorting.

Declare Scope pipeline_scope.
Set Warnings "-inexact-float".

(* ===================================================================== *)
(** ** Strings *)
(* ===================================================================== *)

Module Str.

(** [s.endswith(t)], as a proposition: [s] is some prefix followed by [t]. *)
Definition ends_with (s t : string) : Prop := ∃ pre, s = pre +:+ t.

(** [replace_from old new skip s]: the left-to-right scan of
    [s.replace(old, new)].  [skip] counts the characters of the current
    match that are still to be dropped. *)
Fixpoint replace_from (old new : string) (skip : nat) (s : string) : string :=
  match s with
  | EmptyString => EmptyString
  | String c s' =>
      match skip with
      | S k => replace_from old new k s'
      | O =>
          if String.prefix old s
          then new +:+ replace_from old new (String.length old - 1) s'
          else String c (replace_from old new 0 s')
      end
  end.

(** [s.replace(old, new)] for a non-empty [old]: every non-overlapping
    occurrence, scanning from the left. *)
Definition replace (old new s : string) : string := replace_from old new 0 s.

(** [s.split("/")]: never empty, [""] splits into [[""]]. *)
Fixpoint split_slash (s : string) : list string :=
  match s with
  | EmptyString => [EmptyString]
  | String c s' =>
      if Ascii.eqb c "/"%char then EmptyString :: split_slash s'
      else match split_slash s' with
           | x :: xs => String c x :: xs
           | [] => [String c EmptyString]
           end
  end.

(** ["/".join(l)] *)
Fixpoint join_slash (l : list string) : string :=
  match l with
  | [] => EmptyString
  | [x] => x
  | x :: rest => x +:+ "/" +:+ join_slash rest
  end.

(** [s.rfind(".")]: the index of the last dot, if any. *)
Fixpoint rfind_dot (s : string) : option nat :=
  match s with
  | EmptyString => None
  | String c s' =>
      match rfind_dot s' with
      | Some i => Some (S i)
      | None => if Ascii.eqb c "."%char then Some 0 else None
      end
  end.

(** Number of leading slashes. *)
Fixpoint leading_slashes (s : string) : nat :=
  match s with
  | String c s' => if Ascii.eqb c "/"%char then S (leading_slashes s') else 0
  | EmptyString => 0
  end.

End Str.

(* ===================================================================== *)
(** ** pathlib (PurePosixPath) *)
(* ===================================================================== *)

Module PurePath.

(** A parsed path: the root (["", "/"] or ["//"]) and the components
    after it; empty components and ["."] are dropped when parsing. *)
Record t := mk { root : string; parts : list string }.

Definition keep (x : string) : bool :=
  negb (String.eqb x "") && negb (String.eqb x ".").

Definition parse_root (s : string) : string :=
  match Str.leading_slashes s with
  | 0 => ""
  | 2 => "//"
  | _ => "/"
  end.

(** [Path(s)] *)
Definition Path (s : string) : t :=
  {| root := parse_root s; parts := List.filter keep (Str.split_slash s) |}.

(** [str(p)] *)
Definition str (p : t) : string :=
  match root p, parts p with
  | EmptyString, [] => "."
  | r, ps => r +:+ Str.join_slash ps
  end.

(** [p / name] for a string [name]: an absolute [name] replaces [p]. *)
Definition joinpath (p : t) (name : string) : t :=
  match Str.leading_slashes name with
  | 0 => {| root := root p; parts := parts p ++ parts (Path name) |}
  | _ => Path name
  end.

(** [p.parent] *)
Definition parent (p : t) : t :=
  {| root := root p; parts := removelast (parts p) |}.

(** [p.name] *)
Definition name (p : t) : string := List.last (parts p) "".

(** [p.stem]: the name without its last suffix; a leading or a trailing
    dot starts no suffix (CPython up to 3.13). *)
Definition stem (p : t) : string :=
  let n := name p in
  match Str.rfind_dot n with
  | Some i =>
      if bool_decide (0 < i ∧ i < String.length n - 1)
      then String.substring 0 i n else n
  | None => n
  end.

(** The key of the comparison of two paths: the root, when there is
    one, followed by the components. *)
Definition cparts (p : t) : list string :=
  if String.eqb (root p) "" then parts p else root p :: parts p.

(** Python's [<=] on lists of strings: lexicographic. *)
Fixpoint lex_leb (l1 l2 : list string) : bool :=
  match l1, l2 with
  | [], _ => true
  | _ :: _, [] => false
  | x :: l1', y :: l2' =>
      match String.compare x y with
      | Lt => true
      | Gt => false
      | Eq => lex_leb l1' l2'
      end
  end.

(** [p <= q] *)
Definition le (p q : t) : Prop := lex_leb (cparts p) (cparts q) = true.

#[global] Instance le_dec : RelDecision le.
Proof. intros p q. unfold le. apply _. Defined.

End PurePath.

(* ===================================================================== *)
(** ** The world outside the script *)
(* ===================================================================== *)

(** One FFmpeg invocation.  The script builds a shell line with an
    f-string; the constructor keeps the filter chain and the values that
    are spliced into it. *)
Inductive Command :=
  | Atempo (input output : string) (tempo_factor : float)
  | Asetrate (input output : string) (new_rate : float) (sample_rate : Z)
  | Amix (input noise : string) (volume : float) (output : string)
  | Reencode (input output : string)
  | Equalizer (input output : string)
  | StreamLoop (loop_count : Z) (input output : string).

(** The file named after [-y] in the command line. *)
Definition output_of (c : Command) : string :=
  match c with
  | Atempo _ o _ | Asetrate _ o _ _ | Amix _ _ _ o
  | Reencode _ o | Equalizer _ o | StreamLoop _ _ o => o
  end.

(** The [description] argument of [run_ffmpeg]. *)
Inductive Description :=
  | ChangingTempo (tempo_factor : float)
  | ChangingPitch (pitch_factor : float)
  | AddingRain
  | AddingVinyl
  | CopyingFile
  | ApplyingEQ
  | CreatingLoop (loop_count : Z).

(** The exceptions that occur in the script. *)
Inductive Exn :=
  | CalledProcessError (c : Command)
  | FileNotFoundError (path : string)
  | PermissionError (path : string)
  | SystemExit (code : Z).

(** [except Exception] catches everything but [SystemExit]. *)
Definition is_Exception (e : Exn) : bool :=
  match e with SystemExit _ => false | _ => true end.

Definition is_CalledProcessError (e : Exn) : bool :=
  match e with CalledProcessError _ => true | _ => false end.

(** What the script prints, line by line. *)
Inductive Message :=
  | MsgRunning (d : Description)
  | MsgCompleted (d : Description)
  | MsgError (d : Description) (c : Command)
  | WarnTempo (tempo_factor : float)
  | WarnPitch (pitch_factor : float)
  | WarnRainMissing (rain_file : string)
  | WarnVinylMissing (vinyl_file : string)
  | MsgProcessing (input_file : string)
  | MsgSkippingEQ
  | MsgComplete (final_output : string)
  | MsgCleaning
  | MsgRemoved (file : string)
  | MsgCouldNotRemove (file : string) (e : Exn)
  | MsgKeeping
  | MsgFound (n : nat)
  | MsgBatchComplete (success_count total : nat)
  | MsgNoAudioFiles.

(** What a run does to its surroundings, in order. *)
Inductive Event :=
  | Print (m : Message)
  | Exec (c : Command) (ok : bool)
  | Rename (src dst : string)
  | Remove (path : string).

(** Python truthiness of an optional string and of an optional integer:
    [Some x] when the value passes an [if], [None] for [None], [""] and [0]. *)
Definition truthy_str (o : option string) : option string :=
  match o with
  | Some s => if String.eqb s "" then None else Some s
  | None => None
  end.

Definition truthy_int (o : option Z) : option Z :=
  match o with
  | Some n => if (n =? 0)%Z then None else Some n
  | None => None
  end.

(** [l.remove(x)]: drops the first occurrence. *)
Fixpoint list_remove_first (x : string) (l : list string) : list string :=
  match l with
  | [] => []
  | y :: l' => if decide (x = y) then l' else y :: list_remove_first x l'
  end.

(* ===================================================================== *)
(** ** State, exceptions and the operating system *)
(* ===================================================================== *)

Section World.

(** Contents of a file; the script never looks at them. *)
Context {File : Type}.

(** What one FFmpeg run leaves behind: on success the output file is
    written; on a non-zero exit status a partial output may remain. *)
Inductive EngineResult :=
  | Done (written : File)
  | Failed (partial : option File).

Record World := mkWorld { fs : gmap string File; log : list Event }.

Inductive Outcome (A : Type) :=
  | Returned (a : A)
  | Raised (e : Exn).
Global Arguments Returned {A} a.
Global Arguments Raised {A} e.

(** State and exceptions. *)
Definition M (A : Type) : Type := World → Outcome A * World.

Definition ret {A} (a : A) : M A := λ w, (Returned a, w).

Definition bind {A B} (m : M A) (k : A → M B) : M B :=
  λ w, match m w with
       | (Returned a, w') => k a w'
       | (Raised e, w') => (Raised e, w')
       end.

Definition raise {A} (e : Exn) : M A := λ w, (Raised e, w).

(** [try: body except <class>: handler] *)
Definition try_except {A} (body : M A) (caught : Exn → bool)
    (handler : Exn → M A) : M A :=
  λ w, match body w with
       | (Raised e, w') => if caught e then handler e w' else (Raised e, w')
       | r => r
       end.

Definition emit (e : Event) : M unit :=
  λ w, (Returned tt, mkWorld (fs w) (log w ++ [e])).

Definition print (m : Message) : M unit := emit (Print m).

Definition os_path_exists (path : string) : M bool :=
  λ w, (Returned (bool_decide (is_Some (fs w !! path))), w).

(** [os.rename(src, dst)] (POSIX): an existing [dst] is replaced. *)
Definition os_rename (src dst : string) : M unit :=
  λ w, match fs w !! src with
       | None => (Raised (FileNotFoundError src), w)
       | Some f =>
           (Returned tt,
            mkWorld (<[dst := f]> (delete src (fs w))) (log w ++ [Rename src dst]))
       end.

End World.

Arguments EngineResult : clear implicits.
Arguments World : clear implicits.
Arguments M : clear implicits.

Notation "x ← y ; z" := (bind y (λ x, z))
  (at level 20, y at level 100, z at level 200, only parsing) : pipeline_scope.
Notation "x ;; z" := (bind x (λ _, z))
  (at level 100, z at level 200, only parsing, right associativity)
  : pipeline_scope.

(* ===================================================================== *)
(** ** The pipeline *)
(* ===================================================================== *)

Section Pipeline.

Context {File : Type}.
Local Open Scope pipeline_scope.

(** The external engine, and the operating system's refusal to delete. *)
Variable engine : Command → gmap string File → EngineResult File.
Variable remove_denied : string → gmap string File → bool.

Local Abbreviation M := (M File).

(** [for x in l: body(x)] *)
Fixpoint for_each {A} (l : list A) (body : A → M unit) : M unit :=
  match l with
  | [] => ret tt
  | x :: l' => body x ;; for_each l' body
  end.

(** [os.remove(path)]: the system may refuse to delete a file. *)
Definition os_remove (path : string) : M unit :=
  λ w, match fs w !! path with
       | None => (Raised (FileNotFoundError path), w)
       | Some _ =>
           if remove_denied path (fs w) then (Raised (PermissionError path), w)
           else (Returned tt, mkWorld (delete path (fs w)) (log w ++ [Remove path]))
       end.

(** [subprocess.run(command, shell=True, check=True, ...)] *)
Definition subprocess_run (command : Command) : M unit :=
  λ w, match engine command (fs w) with
       | Done f =>
           (Returned tt,
            mkWorld (<[output_of command := f]> (fs w)) (log w ++ [Exec command true]))
       | Failed partial =>
           (Raised (CalledProcessError command),
            mkWorld (match partial with
                     | Some f => <[output_of command := f]> (fs w)
                     | None => fs w
                     end)
                    (log w ++ [Exec command false]))
       end.

(** *** The script *)

Definition run_ffmpeg (command : Command) (description : Description) : M bool :=
  print (MsgRunning description) ;;
  try_except
    (subprocess_run command ;;
     print (MsgCompleted description) ;;
     ret true)
    is_CalledProcessError
    (λ _, print (MsgError description command) ;; ret false).

Definition step1_change_tempo (input_file output_file : string)
    (tempo_factor : float) : M bool :=
  (if (tempo_factor <? 0.97)%float || (1.03 <? tempo_factor)%float
   then print (WarnTempo tempo_factor) else ret tt) ;;
  run_ffmpeg (Atempo input_file output_file tempo_factor)
             (ChangingTempo tempo_factor).

Definition step2_change_pitch (input_file output_file : string)
    (pitch_factor : float) : M bool :=
  (if (pitch_factor <? 0.99)%float || (1.01 <? pitch_factor)%float
   then print (WarnPitch pitch_factor) else ret tt) ;;
  let sample_rate := 44100%Z in
  let new_rate := (44100 * pitch_factor)%float in
  run_ffmpeg (Asetrate input_file output_file new_rate sample_rate)
             (ChangingPitch pitch_factor).

(** The second half of [step3_add_noise], from "Add vinyl if available"
    to the closing [return True], for the value of [current_file] that
    the first half leaves. *)
Definition add_vinyl (input_file output_file : string)
    (vinyl_file : option string) (vinyl_volume : float)
    (current_file : string) : M bool :=
  match truthy_str vinyl_file with
  | Some vinyl =>
      present ← os_path_exists vinyl;
      if present then
        ok ← run_ffmpeg (Amix current_file vinyl vinyl_volume output_file)
                        AddingVinyl;
        if negb ok then ret false else ret true
      else
        print (WarnVinylMissing vinyl) ;;
        (* If vinyl is missing but we have rain output, rename it *)
        (if bool_decide (current_file ≠ input_file)
         then os_rename current_file output_file else ret tt) ;;
        ret true
  | None =>
      (* No noise files, just copy the input *)
      if bool_decide (current_file ≠ input_file) then
        os_rename current_file output_file ;;
        ret true
      else
        ok ← run_ffmpeg (Reencode input_file output_file) CopyingFile;
        if negb ok then ret false else ret true
  end.

Definition step3_add_noise (input_file output_file : string)
    (rain_file vinyl_file : option string)
    (rain_volume vinyl_volume : float) : M bool :=
  let current_file := input_file in
  (* Add rain if available *)
  match truthy_str rain_file with
  | Some rain =>
      present ← os_path_exists rain;
      if present then
        let rain_output := Str.replace ".wav" "_rain.wav" output_file in
        ok ← run_ffmpeg (Amix current_file rain rain_volume rain_output)
                        AddingRain;
        if negb ok then ret false else
        let current_file := rain_output in
        add_vinyl input_file output_file vinyl_file vinyl_volume current_file
      else
        print (WarnRainMissing rain) ;;
        add_vinyl input_file output_file vinyl_file vinyl_volume current_file
  | None =>
      add_vinyl input_file output_file vinyl_file vinyl_volume current_file
  end.

Definition step4_apply_eq (input_file output_file : string) : M bool :=
  run_ffmpeg (Equalizer input_file output_file) ApplyingEQ.

Definition step5_create_loop (input_file output_file : string)
    (loop_count : Z) (use_crossfade : bool) : M bool :=
  run_ffmpeg (StreamLoop loop_count input_file output_file)
             (CreatingLoop loop_count).

Definition cleanup_intermediate_files (keep_intermediate : bool)
    (intermediate_files : list string) : M unit :=
  if negb keep_intermediate then
    print MsgCleaning ;;
    for_each intermediate_files (λ file,
      present ← os_path_exists file;
      if present then
        try_except
          (os_remove file ;; print (MsgRemoved file))
          is_Exception
          (λ e, print (MsgCouldNotRemove file e))
      else ret tt)
  else
    print MsgKeeping.

(** The name of the intermediate file of a stage:
    [str(work_dir / f'{base_name}_<tag>.wav')]. *)
Definition stage_file (work_dir : PurePath.t) (base_name tag : string) : string :=
  PurePath.str (PurePath.joinpath work_dir (base_name +:+ "_" +:+ tag +:+ ".wav")).

Definition process_single_file (input_file output_file : string)
    (tempo pitch : float) (rain_file vinyl_file : option string)
    (rain_volume vinyl_volume : float) (loop_count : option Z)
    (use_crossfade skip_eq keep_intermediate : bool)
    (base_name work_dir : option string) : M (bool * option string) :=
  let base_name :=
    match base_name with
    | None => PurePath.stem (PurePath.Path input_file)
    | Some b => b
    end in
  let work_dir :=
    match work_dir with
    | None => PurePath.parent (PurePath.Path input_file)
    | Some d => PurePath.Path d
    end in
  print (MsgProcessing input_file) ;;
  let intermediate_files : list string := [] in
  (* STEP 1 *)
  let tempo_file := stage_file work_dir base_name "tempo" in
  ok ← step1_change_tempo input_file tempo_file tempo;
  if negb ok then ret (false, None) else
  let intermediate_files := (intermediate_files ++ [tempo_file]) in
  (* STEP 2 *)
  let pitch_file := stage_file work_dir base_name "pitch" in
  ok ← step2_change_pitch tempo_file pitch_file pitch;
  if negb ok then ret (false, None) else
  let intermediate_files := (intermediate_files ++ [pitch_file]) in
  (* STEP 3 *)
  let textured_file := stage_file work_dir base_name "textured" in
  ok ← step3_add_noise pitch_file textured_file rain_file vinyl_file
                       rain_volume vinyl_volume;
  if negb ok then ret (false, None) else
  let intermediate_files := (intermediate_files ++ [textured_file]) in
  (* STEP 5 and the rest, for the [final_file] and the
     [intermediate_files] that STEP 4 leaves *)
  let create_loop (final_file : string) (intermediate_files : list string)
      : M (bool * option string) :=
    let finish (final_output : string) (intermediate_files : list string)
        : M (bool * option string) :=
      print (MsgComplete final_output) ;;
      cleanup_intermediate_files keep_intermediate intermediate_files ;;
      ret (true, Some final_output) in
    match truthy_int loop_count with
    | Some loop_count =>
        let looped_file := output_file in
        ok ← step5_create_loop final_file looped_file loop_count use_crossfade;
        if negb ok then ret (false, None) else
        let final_output := looped_file in
        finish final_output intermediate_files
    | None =>
        (if bool_decide (final_file ≠ output_file)
         then os_rename final_file output_file else ret tt) ;;
        let final_output := output_file in
        let intermediate_files :=
          if bool_decide (final_file ∈ intermediate_files)
          then list_remove_first final_file intermediate_files
          else intermediate_files in
        finish final_output intermediate_files
    end in
  (* STEP 4 *)
  if skip_eq then
    print MsgSkippingEQ ;;
    let final_file := textured_file in
    create_loop final_file intermediate_files
  else
    let final_file := stage_file work_dir base_name "final" in
    ok ← step4_apply_eq textured_file final_file;
    if negb ok then ret (false, None) else
    let intermediate_files := (intermediate_files ++ [final_file]) in
    create_loop final_file intermediate_files.

End Pipeline.

(* ===================================================================== *)
(** ** The music-folder batch of [main] *)
(* ===================================================================== *)

(** The options of the command line that the batch passes on. *)
Record Args := mkArgs {
  args_tempo : float;
  args_pitch : float;
  args_rain : option string;
  args_vinyl : option string;
  args_rain_volume : float;
  args_vinyl_volume : float;
  args_loop : option Z;
  args_no_crossfade : bool;
  args_keep_intermediate : bool;
  args_skip_eq : bool
}.

Section Batch.

Context {File : Type}.
Local Open Scope pipeline_scope.

Variable engine : Command → gmap string File → EngineResult File.
Variable remove_denied : string → gmap string File → bool.

Local Abbreviation M := (M File).

Definition music_dir : PurePath.t := PurePath.Path "music".

(** [sorted(audio_files)] *)
Definition sorted (audio_files : list PurePath.t) : list PurePath.t :=
  merge_sort PurePath.le audio_files.

(** One turn of the [for] loop: the call of [process_single_file]. *)
Definition process_audio_file (args : Args) (audio_file : PurePath.t)
    : M (bool * option string) :=
  let base_name := PurePath.stem audio_file in
  let output_file := PurePath.joinpath music_dir (base_name +:+ "_processed.wav") in
  process_single_file engine remove_denied
    (PurePath.str audio_file)
    (PurePath.str output_file)
    (args_tempo args)
    (args_pitch args)
    (args_rain args)
    (args_vinyl args)
    (args_rain_volume args)
    (args_vinyl_volume args)
    (args_loop args)
    (negb (args_no_crossfade args))
    (args_skip_eq args)
    (args_keep_intermediate args)
    (Some base_name)
    (Some (PurePath.str music_dir)).

(** [for audio_file in files: ...], returning the final [success_count]. *)
Fixpoint batch_loop (args : Args) (files : list PurePath.t)
    (success_count : nat) : M nat :=
  match files with
  | [] => ret success_count
  | audio_file :: rest =>
      r ← process_audio_file args audio_file;
      let success := fst r in
      let success_count := if success then success_count + 1 else success_count in
      batch_loop args rest success_count
  end.

(** The [if args.music_folder:] block of [main], from the list of files
    that the globbing of the music folder found. *)
Definition music_folder_batch (args : Args) (audio_files : list PurePath.t)
    : M unit :=
  match audio_files with
  | [] => print MsgNoAudioFiles ;; raise (SystemExit 1)
  | _ =>
      print (MsgFound (length audio_files)) ;;
      success_count ← batch_loop args (sorted audio_files) 0;
      print (MsgBatchComplete success_count (length audio_files))
  end.

End Batch.


(* ===================================================================== *)
(** ** Vocabulary of the specification *)
(* ===================================================================== *)

(** The arguments of one call of [process_single_file]. *)
Module Job.
Record t := mk {
  input_file : string;
  output_file : string;
  tempo : float;
  pitch : float;
  rain_file : option string;
  vinyl_file : option string;
  rain_volume : float;
  vinyl_volume : float;
  loop_count : option Z;
  use_crossfade : bool;
  skip_eq : bool;
  keep_intermediate : bool;
  base_name : option string;
  work_dir : option string
}.
End Job.

(** The five stages. *)
Inductive Stage := Tempo | Pitch | Noise | EQ | Loop.

#[global] Instance Stage_eq_dec : EqDecision Stage.
Proof. solve_decision. Defined.

(** The stage that issues a command. *)
Definition stage_of (c : Command) : Stage :=
  match c with
  | Atempo _ _ _ => Tempo
  | Asetrate _ _ _ _ => Pitch
  | Amix _ _ _ _ | Reencode _ _ => Noise
  | Equalizer _ _ => EQ
  | StreamLoop _ _ _ => Loop
  end.

(** The engine invocations recorded in a log, in order. *)
Definition execs (l : list Event) : list (Command * bool) :=
  omap (λ e, match e with Exec c ok => Some (c, ok) | _ => None end) l.


Definition removals (l : list Event) : list string :=
  omap (λ e, match e with Remove path => Some path | _ => None end) l.

(** The out-of-range warnings recorded in a log. *)
Definition warnings (l : list Event) : list Message :=
  omap (λ e, match e with
             | Print (WarnTempo f) => Some (WarnTempo f)
             | Print (WarnPitch f) => Some (WarnPitch f)
             | _ => None
             end) l.

Section Spec.

Context {File : Type}.
Local Open Scope pipeline_scope.

Variable engine : Command → gmap string File → EngineResult File.
Variable remove_denied : string → gmap string File → bool.

Local Abbreviation M := (M File).

(** The call of [process_single_file] that a job stands for. *)
Definition process_job (j : Job.t) : M (bool * option string) :=
  process_single_file engine remove_denied
    (Job.input_file j) (Job.output_file j) (Job.tempo j) (Job.pitch j)
    (Job.rain_file j) (Job.vinyl_file j) (Job.rain_volume j)
    (Job.vinyl_volume j) (Job.loop_count j) (Job.use_crossfade j)
    (Job.skip_eq j) (Job.keep_intermediate j) (Job.base_name j)
    (Job.work_dir j).

(** The base name B and the working directory D of a run. *)
Definition run_base_name (j : Job.t) : string :=
  default (PurePath.stem (PurePath.Path (Job.input_file j))) (Job.base_name j).

Definition run_work_dir (j : Job.t) : PurePath.t :=
  match Job.work_dir j with
  | None => PurePath.parent (PurePath.Path (Job.input_file j))
  | Some d => PurePath.Path d
  end.

(** The intermediate files of a run. *)
Definition tempo_file (j : Job.t) : string :=
  stage_file (run_work_dir j) (run_base_name j) "tempo".
Definition pitch_file (j : Job.t) : string :=
  stage_file (run_work_dir j) (run_base_name j) "pitch".
Definition textured_file (j : Job.t) : string :=
  stage_file (run_work_dir j) (run_base_name j) "textured".
Definition eq_file (j : Job.t) : string :=
  stage_file (run_work_dir j) (run_base_name j) "final".
Definition rain_output (j : Job.t) : string :=
  Str.replace ".wav" "_rain.wav" (textured_file j).

(** [final_file] once STEP 4 is over. *)
Definition final_file (j : Job.t) : string :=
  if Job.skip_eq j then textured_file j else eq_file j.

(** [intermediate_files] once STEP 4 is over. *)
Definition recorded_files (j : Job.t) : list string :=
  [tempo_file j; pitch_file j; textured_file j]
  ++ (if Job.skip_eq j then [] else [eq_file j]).

(** [intermediate_files] when the clean-up is called. *)
Definition cleanup_files (j : Job.t) : list string :=
  match truthy_int (Job.loop_count j) with
  | Some _ => recorded_files j
  | None =>
      if bool_decide (final_file j ∈ recorded_files j)
      then list_remove_first (final_file j) (recorded_files j)
      else recorded_files j
  end.

(** What stands in the place of STEP 4 when it is skipped: a notice is
    printed, no file is read or written. *)
Definition skip_eq_notice : M bool := print MsgSkippingEQ ;; ret true.

(** The stages of a run, in the order of the state machine
    TEMPO, PITCH, NOISE, EQ (optional), LOOP (optional). *)
Definition pipeline_stages (j : Job.t) : list (Stage * M bool) :=
  [ (Tempo, step1_change_tempo engine (Job.input_file j) (tempo_file j) (Job.tempo j));
    (Pitch, step2_change_pitch engine (tempo_file j) (pitch_file j) (Job.pitch j));
    (Noise, step3_add_noise engine (pitch_file j) (textured_file j)
              (Job.rain_file j) (Job.vinyl_file j)
              (Job.rain_volume j) (Job.vinyl_volume j)) ]
  ++ [ (EQ, if Job.skip_eq j then skip_eq_notice
             else step4_apply_eq engine (textured_file j) (eq_file j)) ]
  ++ (match truthy_int (Job.loop_count j) with
      | Some n => [ (Loop, step5_create_loop engine (final_file j) (Job.output_file j)
                            n (Job.use_crossfade j)) ]
      | None => []
      end).



(** The state machine: the stages run in order, each one only when the
    one before it reported success; the first failure ends the walk. *)
Inductive walk : list (Stage * M bool) → World File → bool → World File → Prop :=
  | walk_done w :
      walk [] w true w
  | walk_failed s st rest w w' :
      st w = (Returned false, w') →
      walk ((s, st) :: rest) w false w'
  | walk_next s st rest w w1 ok w' :
      st w = (Returned true, w1) →
      walk rest w1 ok w' →
      walk ((s, st) :: rest) w ok w'.

(** The same walk as a program. *)
Fixpoint run_stages (l : list (Stage * M bool)) : M bool :=
  match l with
  | [] => ret true
  | (_, st) :: rest =>
      ok ← st;
      if negb ok then ret false else run_stages rest
  end.

(** What [process_single_file] does once every stage has succeeded. *)
Definition conclude (j : Job.t) : M (bool * option string) :=
  (match truthy_int (Job.loop_count j) with
   | Some _ => ret tt
   | None =>
       if bool_decide (final_file j ≠ Job.output_file j)
       then os_rename (final_file j) (Job.output_file j) else ret tt
   end) ;;
  print (MsgComplete (Job.output_file j)) ;;
  cleanup_intermediate_files remove_denied (Job.keep_intermediate j)
    (cleanup_files j) ;;
  ret (true, Some (Job.output_file j)).

(** The file system once [final_file] is moved to the output path, for a
    run without loop stage; with a loop stage nothing is moved. *)
Definition fs_moved (j : Job.t) (m : gmap string File) : gmap string File :=
  match truthy_int (Job.loop_count j), m !! final_file j with
  | None, Some f =>
      if bool_decide (final_file j ≠ Job.output_file j)
      then <[Job.output_file j := f]> (delete (final_file j) m) else m
  | _, _ => m
  end.

(** The world once the header line of a run is printed. *)
Definition started (j : Job.t) (w : World File) : World File :=
  mkWorld (fs w) (log w ++ [Print (MsgProcessing (Job.input_file j))]).

(** The file system that one engine invocation leaves. *)
Definition fs_after (c : Command) (m : gmap string File) : gmap string File :=
  match engine c m with
  | Done f | Failed (Some f) => <[output_of c := f]> m
  | Failed None => m
  end.

Definition engine_ok (c : Command) (m : gmap string File) : bool :=
  match engine c m with Done _ => true | Failed _ => false end.

(** [grows P w w']: the log of [w'] is the log of [w] followed by events
    that satisfy [P]. *)
Definition grows (P : Event → Prop) (w w' : World File) : Prop :=
  ∃ new, log w' = log w ++ new ∧ Forall P new.

(** An event of stage [s]: an engine invocation of [s], a line of
    output or a rename; no file is deleted. *)
Definition exec_in (s : Stage) (e : Event) : Prop :=
  match e with
  | Exec c _ => stage_of c = s
  | Remove _ => False
  | _ => True
  end.

(** An event that is no engine invocation. *)
Definition no_exec (e : Event) : Prop :=
  match e with Exec _ _ => False | _ => True end.

End Spec.


(** The number of runs that reported success. *)
Definition count_successes (successes : list bool) : nat :=
  length (List.filter id successes).

Section BatchSpec.

Context {File : Type}.

Variable engine : Command → gmap string File → EngineResult File.
Variable remove_denied : string → gmap string File → bool.

(** [batch_runs args files w successes w']: starting in [w], the files
    are processed one after the other in the order of the list, each run
    returns, with success or with failure, as [successes] records, and
    the last one leaves [w']. *)
Inductive batch_runs (args : Args)
    : list PurePath.t → World File → list bool → World File → Prop :=
  | batch_runs_nil w :
      batch_runs args [] w [] w
  | batch_runs_cons audio_file rest w success final_output w1 successes w' :
      process_audio_file engine remove_denied args audio_file w
        = (Returned (success, final_output), w1) →
      batch_runs args rest w1 successes w' →
      batch_runs args (audio_file :: rest) w (success :: successes) w'.

(** The world once the number of files found is printed. *)
Definition announced (audio_files : list PurePath.t) (w : World File) : World File :=
  mkWorld (fs w) (log w ++ [Print (MsgFound (length audio_files))]).


End BatchSpec.

(* ===================================================================== *)
(** ** A concrete engine and concrete runs *)
(* ===================================================================== *)

Module Example.

(** A file is sound of some generation (an original has generation 0, an
    output of the engine one more than its first input) or not audio. *)
Inductive Audio := Sound (generation : nat) | Corrupt.

Definition inputs_of (c : Command) : list string :=
  match c with
  | Amix i n _ _ => [i; n]
  | Atempo i _ _ | Asetrate i _ _ _ | Reencode i _ | Equalizer i _
  | StreamLoop _ i _ => [i]
  end.

(** The generations of the inputs, when all of them are there and sound. *)
Fixpoint generations (m : gmap string Audio) (paths : list string) : option (list nat) :=
  match paths with
  | [] => Some []
  | path :: rest =>
      match m !! path, generations m rest with
      | Some (Sound n), Some ns => Some (n :: ns)
      | _, _ => None
      end
  end.

(** An engine that succeeds exactly when every input is there and sound,
    and leaves nothing behind when it fails. *)
Definition ffmpeg (c : Command) (m : gmap string Audio) : EngineResult Audio :=
  match generations m (inputs_of c) with
  | Some (n :: _) => Done (Sound (S n))
  | _ => Failed None
  end.

(** The same engine with a pitch filter that always fails. *)
Definition ffmpeg_without_asetrate (c : Command) (m : gmap string Audio)
    : EngineResult Audio :=
  match c with
  | Asetrate _ _ _ _ => Failed None
  | _ => ffmpeg c m
  end.

Definition never_denied (path : string) (m : gmap string Audio) : bool := false.

(** A directory with one song, and the same with the two noise assets. *)
Definition disk : gmap string Audio := {[ "song.mp3" := Sound 0 ]}.

Definition disk_with_noise : gmap string Audio :=
  <[ "rain.wav" := Sound 0 ]> (<[ "vinyl.wav" := Sound 0 ]> disk).

Definition boot (m : gmap string Audio) : World Audio := mkWorld m [].

(** [python process_audio.py song.mp3], with the defaults of the command
    line. *)
Definition cli_job : Job.t :=
  {| Job.input_file := "song.mp3";
     Job.output_file := "song_processed.wav";
     Job.tempo := 0.975;
     Job.pitch := 0.99;
     Job.rain_file := Some "rain.wav";
     Job.vinyl_file := Some "vinyl.wav";
     Job.rain_volume := 0.05;
     Job.vinyl_volume := 0.03;
     Job.loop_count := None;
     Job.use_crossfade := true;
     Job.skip_eq := false;
     Job.keep_intermediate := false;
     Job.base_name := Some "song";
     Job.work_dir := None |}.

(** [... --skip-eq] *)
Definition skip_eq_job : Job.t :=
  {| Job.input_file := "song.mp3";
     Job.output_file := "song_processed.wav";
     Job.tempo := 0.975;
     Job.pitch := 0.99;
     Job.rain_file := Some "rain.wav";
     Job.vinyl_file := Some "vinyl.wav";
     Job.rain_volume := 0.05;
     Job.vinyl_volume := 0.03;
     Job.loop_count := None;
     Job.use_crossfade := true;
     Job.skip_eq := true;
     Job.keep_intermediate := false;
     Job.base_name := Some "song";
     Job.work_dir := None |}.



(** A music folder with three songs and one file that is no audio. *)
Definition music_folder : gmap string Audio :=
  {[ "music/a.mp3" := Sound 0; "music/b.wav" := Sound 0;
     "music/c.flac" := Corrupt; "music/d.ogg" := Sound 0;
     "rain.wav" := Sound 0; "vinyl.wav" := Sound 0 ]}.

(** What the globbing of the music folder finds, in the order of the
    extensions of [main]. *)
Definition globbed : list PurePath.t :=
  [ PurePath.Path "music/a.mp3"; PurePath.Path "music/b.wav";
    PurePath.Path "music/c.flac"; PurePath.Path "music/d.ogg" ].

Definition cli_args : Args :=
  {| args_tempo := 0.975;
     args_pitch := 0.99;
     args_rain := Some "rain.wav";
     args_vinyl := Some "vinyl.wav";
     args_rain_volume := 0.05;
     args_vinyl_volume := 0.03;
     args_loop := None;
     args_no_crossfade := false;
     args_keep_intermediate := false;
     args_skip_eq := false |}.

End Example.

(* ===================================================================== *)
(** ** Verdicts of the engine along a run *)
(* ===================================================================== *)




(* ===================================================================== *)
(** ** Scripts: [main] and what runs around the pipeline *)
(* ===================================================================== *)

(** A script runs in a session, the files on disk and the transcript of
    what it printed and did, and it returns a value or raises.  The
    transcript and the exceptions are those of the script at hand. *)
Module Script.

Section Script.

Context {File Event Exn : Type}.

Record Session := mkSession {
  disk : gmap string File;
  transcript : list Event
}.

Inductive Result (A : Type) :=
  | Value (a : A)
  | Thrown (e : Exn).
Global Arguments Value {A} a.
Global Arguments Thrown {A} e.

Definition t (A : Type) : Type := Session → Result A * Session.

Definition ret {A} (a : A) : t A := λ s, (Value a, s).

Definition bind {A B} (m : t A) (k : A → t B) : t B :=
  λ s, match m s with
       | (Value a, s') => k a s'
       | (Thrown e, s') => (Thrown e, s')
       end.

Definition raise {A} (e : Exn) : t A := λ s, (Thrown e, s).

(** [try: body except <class>: handler] *)
Definition try_except {A} (body : t A) (caught : Exn → bool)
    (handler : Exn → t A) : t A :=
  λ s, match body s with
       | (Thrown e, s') => if caught e then handler e s' else (Thrown e, s')
       | r => r
       end.

Definition emit (e : Event) : t unit :=
  λ s, (Value tt, mkSession (disk s) (transcript s ++ [e])).

End Script.

Arguments Session : clear implicits.
Arguments Result : clear implicits.
Arguments t : clear implicits.

End Script.

Declare Scope script_scope.
Notation "x ← y ; z" := (Script.bind y (λ x, z))
  (at level 20, y at level 100, z at level 200, only parsing) : script_scope.
Notation "x ;; z" := (Script.bind x (λ _, z))
  (at level 100, z at level 200, only parsing, right associativity)
  : script_scope.

(** [check_ffmpeg], the same function in both scripts, from what
    [subprocess.run(['ffmpeg', '-version'])] gives: the return code of
    the program, or [None] when no such program is found
    ([FileNotFoundError], which the function swallows). *)
Definition check_ffmpeg (ffmpeg_version : option Z) : bool :=
  match ffmpeg_version with
  | Some returncode => if (returncode =? 0)%Z then true else false
  | None => false
  end.

(* ===================================================================== *)
(** ** [main] of process_audio.py *)
(* ===================================================================== *)

(** The parsed command line: the positional [input], [-o] and
    [--music-folder], and the options that are passed on to the runs. *)
Record CommandLine := mkCommandLine {
  args_input : option string;
  args_output : option string;
  args_music_folder : bool;
  args_options : Args
}.

(** The lines that [main] prints itself: the line before the FFmpeg
    check, the two lines when FFmpeg is missing, the line when it is
    found, the line for a missing music folder, the line for a missing
    input, and the two closing lines of a single-file call. *)
Inductive Line :=
  | LineChecking
  | LineNoFFmpeg
  | LineFFmpegFound
  | LineNoMusicFolder
  | LineInputNotFound (input : string)
  | LineRemember.

Section Main.

Context {File : Type}.
Local Open Scope script_scope.

Variable engine : Command → gmap string File → EngineResult File.
Variable remove_denied : string → gmap string File → bool.

(** What [main] learns from its surroundings before any run starts: the
    outcome of [ffmpeg -version], whether the folder [music] exists, and
    the files that the twelve globs of the folder find. *)
Variable ffmpeg_version : option Z.
Variable music_dir_exists : bool.
Variable audio_files : list PurePath.t.

(** The transcript of [main]: its own lines, and the events of the
    pipeline in the order in which they happen. *)
Local Abbreviation Script := (Script.t File (Line + Event) Exn).

Definition say (l : Line) : Script unit := Script.emit (inl l).

(** A part of the script that is written in the pipeline's monad.  The
    pipeline only ever appends to its log ([within_appends] below), so
    the part is run on an empty log and its events are added to the
    transcript. *)
Definition within {A} (m : M File A) : Script A :=
  λ s, match m (mkWorld (Script.disk s) []) with
       | (r, w) =>
           (match r with
            | Returned a => Script.Value a
            | Raised e => Script.Thrown e
            end,
            Script.mkSession (fs w) (Script.transcript s ++ (inr <$> log w)))
       end.

(** [main], from [args = parser.parse_args()] on.  [parser.error] exits
    with status 2. *)
Definition main (args : CommandLine) : Script unit :=
  say LineChecking ;;
  if negb (check_ffmpeg ffmpeg_version) then
    say LineNoFFmpeg ;;
    Script.raise (SystemExit 1)
  else
  say LineFFmpegFound ;;
  (* Handle music folder batch processing *)
  if args_music_folder args then
    if negb music_dir_exists then
      say LineNoMusicFolder ;;
      Script.raise (SystemExit 1)
    else
    within (music_folder_batch engine remove_denied (args_options args) audio_files)
  else
  (* Single file processing *)
  match truthy_str (args_input args) with
  | None => Script.raise (SystemExit 2) (* parser.error *)
  | Some input =>
      present ← within (os_path_exists input);
      if negb present then
        say (LineInputNotFound input) ;;
        Script.raise (SystemExit 1)
      else
      (* Determine output file name *)
      let output :=
        match args_output args with
        | None =>
            let base_name := PurePath.stem (PurePath.Path input) in
            base_name +:+ "_processed.wav"
        | Some output => output
        end in
      let base_name := PurePath.stem (PurePath.Path input) in
      r ← within (process_single_file engine remove_denied
                    input
                    output
                    (args_tempo (args_options args))
                    (args_pitch (args_options args))
                    (args_rain (args_options args))
                    (args_vinyl (args_options args))
                    (args_rain_volume (args_options args))
                    (args_vinyl_volume (args_options args))
                    (args_loop (args_options args))
                    (negb (args_no_crossfade (args_options args)))
                    (args_skip_eq (args_options args))
                    (args_keep_intermediate (args_options args))
                    (Some base_name)
                    None);
      let success := fst r in
      if negb success then Script.raise (SystemExit 1) else
      say LineRemember
  end.

End Main.

(** The run that [main] starts for a single input file. *)
Definition single_file_job (args : CommandLine) (input : string) : Job.t :=
  {| Job.input_file := input;
     Job.output_file :=
       match args_output args with
       | None => PurePath.stem (PurePath.Path input) +:+ "_processed.wav"
       | Some output => output
       end;
     Job.tempo := args_tempo (args_options args);
     Job.pitch := args_pitch (args_options args);
     Job.rain_file := args_rain (args_options args);
     Job.vinyl_file := args_vinyl (args_options args);
     Job.rain_volume := args_rain_volume (args_options args);
     Job.vinyl_volume := args_vinyl_volume (args_options args);
     Job.loop_count := args_loop (args_options args);
     Job.use_crossfade := negb (args_no_crossfade (args_options args));
     Job.skip_eq := args_skip_eq (args_options args);
     Job.keep_intermediate := args_keep_intermediate (args_options args);
     Job.base_name := Some (PurePath.stem (PurePath.Path input));
     Job.work_dir := None |}.

(** An entry of the transcript of [main] that is a printed line. *)
Definition is_printed (e : Line + Event) : Prop :=
  match e with
  | inl _ | inr (Print _) => True
  | inr _ => False
  end.

(* ===================================================================== *)
(** ** generate_noise.py *)
(* ===================================================================== *)

Module GenerateNoise.

(** The two FFmpeg invocations of the script.  Both read white noise
    from [anoisesrc] for [duration] seconds: the rain with seed 42
    through [lowpass=f=2000,highpass=f=200,volume=0.3], the vinyl with
    seed 123 through [highpass=f=1000,lowpass=f=8000,volume=0.2]. *)
Inductive Command :=
  | RainNoise (duration : Z) (output : string)
  | VinylNoise (duration : Z) (output : string).

(** The file named after [-y] in the command line. *)
Definition output_of (c : Command) : string :=
  match c with RainNoise _ o | VinylNoise _ o => o end.

Inductive Exn :=
  | CalledProcessError (c : Command)
  | SystemExit (code : Z).

Definition is_CalledProcessError (e : Exn) : bool :=
  match e with CalledProcessError _ => true | _ => false end.

(** What the script prints; [MsgNoFFmpeg] and [MsgAllGenerated] stand
    for two lines each. *)
Inductive Message :=
  | MsgGeneratingRain (duration : Z)
  | MsgRainCreated (output : string)
  | MsgRainError (c : Command)
  | MsgGeneratingVinyl (duration : Z)
  | MsgVinylCreated (output : string)
  | MsgVinylError (c : Command)
  | MsgNoFFmpeg
  | MsgAllGenerated.

Inductive Event :=
  | Print (m : Message)
  | Exec (c : Command) (ok : bool).

(** The engine invocations recorded in a transcript, in order. *)
Definition execs (l : list Event) : list (Command * bool) :=
  omap (λ e, match e with Exec c ok => Some (c, ok) | _ => None end) l.

(** The parsed command line. *)
Record Args := mkArgs {
  args_rain : bool;
  args_vinyl : bool;
  args_duration : Z;
  args_rain_output : string;
  args_vinyl_output : string
}.

Section GenerateNoise.

Context {File : Type}.
Local Open Scope script_scope.

(** The external engine, and the outcome of [ffmpeg -version]. *)
Variable engine : Command → gmap string File → EngineResult File.
Variable ffmpeg_version : option Z.

Local Abbreviation Script := (Script.t File Event Exn).

Definition print (m : Message) : Script unit := Script.emit (Print m).

(** [subprocess.run(command, shell=True, check=True, ...)] *)
Definition subprocess_run (command : Command) : Script unit :=
  λ s, match engine command (Script.disk s) with
       | Done f =>
           (Script.Value tt,
            Script.mkSession (<[output_of command := f]> (Script.disk s))
              (Script.transcript s ++ [Exec command true]))
       | Failed partial =>
           (Script.Thrown (CalledProcessError command),
            Script.mkSession
              (match partial with
               | Some f => <[output_of command := f]> (Script.disk s)
               | None => Script.disk s
               end)
              (Script.transcript s ++ [Exec command false]))
       end.

Definition generate_rain (duration : Z) (output : string) : Script bool :=
  print (MsgGeneratingRain duration) ;;
  let command := RainNoise duration output in
  Script.try_except
    (subprocess_run command ;;
     print (MsgRainCreated output) ;;
     Script.ret true)
    is_CalledProcessError
    (λ e, print (MsgRainError command) ;; Script.ret false).

Definition generate_vinyl (duration : Z) (output : string) : Script bool :=
  print (MsgGeneratingVinyl duration) ;;
  let command := VinylNoise duration output in
  Script.try_except
    (subprocess_run command ;;
     print (MsgVinylCreated output) ;;
     Script.ret true)
    is_CalledProcessError
    (λ e, print (MsgVinylError command) ;; Script.ret false).

(** [main], from [args = parser.parse_args()] on. *)
Definition main (args : Args) : Script unit :=
  (* If no specific option, generate both *)
  let generate_both := negb (args_rain args) && negb (args_vinyl args) in
  if negb (check_ffmpeg ffmpeg_version) then
    print MsgNoFFmpeg ;;
    Script.raise (SystemExit 1)
  else
  let success := true in
  success ←
    (if args_rain args || generate_both then
       ok ← generate_rain (args_duration args) (args_rain_output args);
       if negb ok then Script.ret false else Script.ret success
     else Script.ret success);
  success ←
    (if args_vinyl args || generate_both then
       ok ← generate_vinyl (args_duration args) (args_vinyl_output args);
       if negb ok then Script.ret false else Script.ret success
     else Script.ret success);
  if success then print MsgAllGenerated
  else Script.raise (SystemExit 1).

(** The verdict of the engine on a command, and the disk that the
    invocation leaves. *)
Definition engine_ok (c : Command) (m : gmap string File) : bool :=
  match engine c m with Done _ => true | Failed _ => false end.




End GenerateNoise.

End GenerateNoise.

(* ===================================================================== *)
(** ** Concrete sessions of the two scripts *)
(* ===================================================================== *)

Module Scenario.
Import Example.



(** [python process_audio.py song.mp3] *)
Definition song_args : CommandLine :=
  {| args_input := Some "song.mp3";
     args_output := None;
     args_music_folder := false;
     args_options := cli_args |}.

(** [python process_audio.py --music-folder] *)
Definition folder_args : CommandLine :=
  {| args_input := None;
     args_output := None;
     args_music_folder := true;
     args_options := cli_args |}.



Definition desk (m : gmap string Audio) : Script.Session Audio (Line + Event) :=
  Script.mkSession m [].

End Scenario.

(* ===================================================================== *)
(** ** Facts about strings and paths *)
(* ===================================================================== *)

Module StrFacts.
Import Str.

Lemma app_cons c s t : String c s +:+ t = String c (s +:+ t).
Proof. reflexivity. Qed.

Lemma app_nil_l t : "" +:+ t = t.
Proof. reflexivity. Qed.

Lemma app_assoc s t u : (s +:+ t) +:+ u = s +:+ (t +:+ u).
Proof. induction s as [| c s IH]; [done |]. by rewrite !app_cons, IH. Qed.

Lemma length_app s t : String.length (s +:+ t) = String.length s + String.length t.
Proof. induction s as [| c s IH]; [done |]. rewrite app_cons. simpl. by rewrite IH. Qed.

(** Two suffixes of the same length of one string are equal. *)
Lemma app_inv_tail p1 p2 t1 t2 :
  p1 +:+ t1 = p2 +:+ t2 → String.length t1 = String.length t2 → t1 = t2.
Proof.
  revert p2. induction p1 as [| c p1 IH]; intros [| c2 p2] Heq Hlen.
  - done.
  - rewrite app_nil_l in Heq. subst t1.
    rewrite app_cons in Hlen. simpl in Hlen. rewrite length_app in Hlen. lia.
  - rewrite app_nil_l in Heq. subst t2.
    rewrite app_cons in Hlen. simpl in Hlen. rewrite length_app in Hlen. lia.
  - rewrite !app_cons in Heq. injection Heq as _ Heq. by apply (IH p2).
Qed.

Lemma ends_with_refl s : ends_with s s.
Proof. by exists "". Qed.

Lemma ends_with_app p s t : ends_with s t → ends_with (p +:+ s) t.
Proof. intros [pre ->]. exists (p +:+ pre). by rewrite app_assoc. Qed.

Lemma ends_with_cons c s t : ends_with s t → ends_with (String c s) t.
Proof. intros [pre ->]. by exists (String c pre). Qed.

(** A suffix of a suffix. *)
Lemma ends_with_tail s a b : ends_with s (a +:+ b) → ends_with s b.
Proof. intros [pre ->]. exists (pre +:+ a). by rewrite app_assoc. Qed.

Lemma ends_with_inj s t1 t2 :
  ends_with s t1 → ends_with s t2 →
  String.length t1 = String.length t2 → t1 = t2.
Proof. intros [p1 ->] [p2 Heq] Hlen. by eapply app_inv_tail. Qed.

(** The scan of [replace] reaches a final [".wav"]: no occurrence that
    starts earlier can overlap it. *)
Lemma replace_from_final_wav s skip :
  (skip ≤ String.length s)%nat →
  ends_with (replace_from ".wav" "_rain.wav" skip (s +:+ ".wav")) "_rain.wav".
Proof.
  revert skip. induction s as [| c s IH]; intros skip Hskip.
  - assert (skip = 0) as -> by (simpl in Hskip; lia). by exists "".
  - rewrite app_cons. destruct skip as [| k].
    + cbn [replace_from].
      destruct (String.prefix ".wav" (String c (s +:+ ".wav"))) eqn:Hpre.
      * apply ends_with_app. change (String.length ".wav" - 1) with 3.
        destruct s as [| c1 [| c2 [| c3 s]]]; cycle 3.
        { apply IH. simpl. lia. }
        all: apply String.prefix_correct in Hpre;
          cbv [String.append String.length String.substring] in Hpre;
          discriminate Hpre.
      * apply ends_with_cons, IH. lia.
    + cbn [replace_from]. apply IH. simpl in Hskip. lia.
Qed.

Lemma replace_final_wav s :
  ends_with s ".wav" → ends_with (replace ".wav" "_rain.wav" s) "_rain.wav".
Proof. intros [pre ->]. apply replace_from_final_wav. lia. Qed.

(** Splitting at the slashes: text without a slash that is appended to a
    string is appended to the last component. *)
Lemma split_slash_app s t :
  split_slash t = [t] →
  ∃ init l, split_slash s = init ++ [l] ∧ split_slash (s +:+ t) = init ++ [l +:+ t].
Proof.
  intros Ht. induction s as [| c s (init & l & Hs & Hst)].
  - exists [], "". by rewrite app_nil_l, Ht.
  - rewrite app_cons. cbn [split_slash]. rewrite Hs, Hst.
    destruct (Ascii.eqb c "/").
    + by exists ("" :: init), l.
    + destruct init as [| x init]; simpl.
      * by exists [], (String c l).
      * by exists (String c x :: init), l.
Qed.

Lemma join_slash_snoc l x : ends_with (join_slash (l ++ [x])) x.
Proof.
  induction l as [| y l IH]; [apply ends_with_refl |].
  change ((y :: l) ++ [x]) with (y :: (l ++ [x])).
  destruct (l ++ [x]) as [| z l'] eqn:Hl; [by destruct l |].
  cbn [join_slash]. rewrite <- app_assoc. by apply ends_with_app.
Qed.

End StrFacts.

Module PathFacts.
Import Str StrFacts PurePath.

(** The last component of a parsed name survives when it ends with text
    that has no slash and at least two characters. *)
Lemma parts_Path_app s t :
  split_slash t = [t] → 2 ≤ String.length t →
  ∃ init l, parts (Path (s +:+ t)) = init ++ [l +:+ t].
Proof.
  intros Ht Hlen. destruct (split_slash_app s t Ht) as (init & l & _ & Hst).
  exists (List.filter keep init), l. unfold Path; simpl. rewrite Hst.
  rewrite List.filter_app; simpl.
  assert (keep (l +:+ t) = true) as ->; [| done].
  unfold keep. apply andb_true_intro; split; apply negb_true_iff, String.eqb_neq;
    intros Heq; apply (f_equal String.length) in Heq;
    rewrite length_app in Heq; simpl in Heq; lia.
Qed.

Lemma str_parts r ps :
  ps ≠ [] → str {| root := r; parts := ps |} = r +:+ join_slash ps.
Proof. by destruct r, ps. Qed.

Lemma str_snoc r init x : ends_with (str {| root := r; parts := init ++ [x] |}) x.
Proof.
  rewrite str_parts by (by destruct init).
  apply ends_with_app, join_slash_snoc.
Qed.

(** [str(p / (s + t))] ends with [t]. *)
Lemma str_joinpath_ends_with p s t :
  split_slash t = [t] → 2 ≤ String.length t →
  ends_with (str (joinpath p (s +:+ t))) t.
Proof.
  intros Ht Hlen. destruct (parts_Path_app s t Ht Hlen) as (init & l & Hparts).
  apply ends_with_tail with l. unfold joinpath.
  destruct (leading_slashes (s +:+ t)).
  - rewrite Hparts, (assoc_L (++)). apply str_snoc.
  - destruct (Path (s +:+ t)) as [r ps]; simpl in Hparts; subst ps. apply str_snoc.
Qed.

Lemma split_slash_single_app s t :
  split_slash s = [s] → split_slash t = [t] → split_slash (s +:+ t) = [s +:+ t].
Proof.
  intros Hs Ht. destruct (split_slash_app s t Ht) as (init & l & Hs' & ->).
  rewrite Hs in Hs'. by destruct init as [| ? [|]]; simplify_eq/=.
Qed.

(** The name of the intermediate file of a stage ends with the stage's
    tag and the extension. *)
Lemma stage_file_ends_with dir base tag :
  split_slash tag = [tag] →
  ends_with (stage_file dir base tag) ("_" +:+ tag +:+ ".wav").
Proof.
  intros Htag. apply str_joinpath_ends_with.
  - by repeat apply split_slash_single_app.
  - rewrite !length_app; simpl. lia.
Qed.

(** The five intermediate files of a run end with five different
    nine-character suffixes. *)
Lemma tempo_file_suffix j : ends_with (tempo_file j) "tempo.wav".
Proof. apply ends_with_tail with "_". by apply (stage_file_ends_with _ _ "tempo"). Qed.

Lemma pitch_file_suffix j : ends_with (pitch_file j) "pitch.wav".
Proof. apply ends_with_tail with "_". by apply (stage_file_ends_with _ _ "pitch"). Qed.

Lemma textured_file_suffix j : ends_with (textured_file j) "tured.wav".
Proof.
  apply ends_with_tail with "_tex". by apply (stage_file_ends_with _ _ "textured").
Qed.

Lemma eq_file_suffix j : ends_with (eq_file j) "final.wav".
Proof. apply ends_with_tail with "_". by apply (stage_file_ends_with _ _ "final"). Qed.

Lemma rain_output_suffix j : ends_with (rain_output j) "_rain.wav".
Proof.
  apply replace_final_wav. apply ends_with_tail with "_textured".
  by apply (stage_file_ends_with _ _ "textured").
Qed.

(** The intermediate files of one run are pairwise different. *)
Lemma intermediate_files_distinct j :
  NoDup [tempo_file j; pitch_file j; textured_file j; eq_file j; rain_output j].
Proof.
  pose proof (tempo_file_suffix j) as H1. pose proof (pitch_file_suffix j) as H2.
  pose proof (textured_file_suffix j) as H3. pose proof (eq_file_suffix j) as H4.
  pose proof (rain_output_suffix j) as H5.
  assert (∀ s t1 t2, ends_with s t1 → ends_with s t2 →
            String.length t1 = String.length t2 → t1 ≠ t2 → False) as Hno.
  { intros s t1 t2 Ht1 Ht2 Hlen Hne. apply Hne. by eapply ends_with_inj. }
  repeat (apply NoDup_cons; split; [| ]); [.. | apply NoDup_nil_2];
    rewrite ?not_elem_of_cons; repeat split; try apply not_elem_of_nil;
    intros Heq; rewrite Heq in *;
    match goal with
    | Ha : ends_with ?s ?t1, Hb : ends_with ?s ?t2 |- _ =>
        by apply (Hno s t1 t2 Ha Hb)
    end.
Qed.

End PathFacts.


(* ===================================================================== *)
(** ** Facts about the stages *)
(* ===================================================================== *)

Section StageFacts.

Context {File : Type}.
Local Open Scope pipeline_scope.

Variable engine : Command → gmap string File → EngineResult File.
Variable remove_denied : string → gmap string File → bool.

Local Abbreviation M := (M File).
Local Abbreviation World := (World File).

Implicit Types (w : World) (c : Command) (d : Description).

(** One engine invocation: the outcome is the engine's, the log grows by
    three lines, nothing is raised. *)
Lemma run_ffmpeg_eq c d w :
  run_ffmpeg engine c d w =
    (Returned (engine_ok engine c (fs w)),
     mkWorld (fs_after engine c (fs w))
       (log w ++ [ Print (MsgRunning d);
                   Exec c (engine_ok engine c (fs w));
                   Print (if engine_ok engine c (fs w)
                          then MsgCompleted d else MsgError d c) ])).
Proof.
  unfold run_ffmpeg, engine_ok, fs_after, bind, try_except, subprocess_run,
    print, emit, ret; simpl.
  destruct (engine c (fs w)) as [f | [f |]]; simpl;
    by rewrite <- !(assoc_L (++)).
Qed.


Lemma grows_refl P w : grows P w w.
Proof. exists []. by rewrite (right_id_L [] (++)). Qed.

Lemma grows_trans P w1 w2 w3 : grows P w1 w2 → grows P w2 w3 → grows P w1 w3.
Proof.
  intros (n1 & H1 & F1) (n2 & H2 & F2). exists (n1 ++ n2). split.
  - by rewrite H2, H1, (assoc_L (++)).
  - by apply Forall_app.
Qed.

Lemma grows_mono (P Q : Event → Prop) w w' :
  (∀ e, P e → Q e) → grows P w w' → grows Q w w'.
Proof. intros HPQ (n & H & F). exists n. split; [done |]. by eapply Forall_impl. Qed.

Lemma grows_log P w m new :
  Forall P new → grows P w (mkWorld m (log w ++ new)).
Proof. intros F. by exists new. Qed.

Lemma execs_app l1 l2 : execs (l1 ++ l2) = execs l1 ++ execs l2.
Proof. apply omap_app. Qed.

Lemma execs_no_exec new : Forall no_exec new → execs new = [].
Proof.
  induction 1 as [| e new He _ IH]; [done |].
  destruct e; try done. 
Qed.

Lemma grows_no_exec w w' : grows no_exec w w' → execs (log w') = execs (log w).
Proof.
  intros (new & -> & F). by rewrite execs_app, (execs_no_exec new), (right_id_L [] (++)).
Qed.


Lemma fs_after_ok c m :
  engine_ok engine c m = true → is_Some (fs_after engine c m !! output_of c).
Proof.
  unfold engine_ok, fs_after. destruct (engine c m) as [f |]; [| done].
  intros _. by rewrite lookup_insert_eq.
Qed.


(** The tempo stage: the range check only adds a line to the log. *)
Lemma step1_change_tempo_eq i o f w :
  step1_change_tempo engine i o f w =
    run_ffmpeg engine (Atempo i o f) (ChangingTempo f)
      (if (f <? 0.97)%float || (1.03 <? f)%float
       then mkWorld (fs w) (log w ++ [Print (WarnTempo f)]) else w).
Proof.
  unfold step1_change_tempo, bind.
  by destruct ((f <? 0.97)%float || (1.03 <? f)%float).
Qed.

Lemma step2_change_pitch_eq i o f w :
  step2_change_pitch engine i o f w =
    run_ffmpeg engine (Asetrate i o (44100 * f)%float 44100) (ChangingPitch f)
      (if (f <? 0.99)%float || (1.01 <? f)%float
       then mkWorld (fs w) (log w ++ [Print (WarnPitch f)]) else w).
Proof.
  unfold step2_change_pitch, bind.
  by destruct ((f <? 0.99)%float || (1.01 <? f)%float).
Qed.

(** The master equation: a run is the walk through its stages followed,
    when every stage succeeded, by the conclusion. *)
Lemma process_job_eq j w :
  process_job engine remove_denied j w =
    (ok ← run_stages (pipeline_stages engine j);
     if ok then conclude remove_denied j else ret (false, None)) (started j w).
Proof.
  destruct j as [i o t p r v rv vv l cf sk keep b d].
  unfold process_job, process_single_file, pipeline_stages, conclude,
    final_file, cleanup_files, recorded_files, tempo_file, pitch_file,
    textured_file, eq_file, run_base_name, run_work_dir, started; simpl.
  destruct b as [b |], d as [d |]; simpl;
    unfold run_stages, skip_eq_notice, bind, print, emit, ret; simpl.
  all: destruct (step1_change_tempo _ _ _ _ _) as [[[] | ?] w1]; simpl; try done.
  all: destruct (step2_change_pitch _ _ _ _ _) as [[[] | ?] w2]; simpl; try done.
  all: destruct (step3_add_noise _ _ _ _ _ _ _ _) as [[[] | ?] w3]; simpl; try done.
  all: destruct sk; simpl.
  all: try (destruct (step4_apply_eq _ _ _ _) as [[[] | ?] w4]; simpl; try done).
  all: destruct (truthy_int l) as [n |]; simpl.
  all: try (destruct (step5_create_loop _ _ _ _ _ _) as [[[] | ?] w5]; simpl; try done).
  all: done.
Qed.


(** The vinyl block never raises once the file it may have to rename is
    there, and it issues noise-stage commands only. *)
Lemma add_vinyl_returns i o v vv cur w :
  cur = i ∨ is_Some (fs w !! cur) →
  ∃ ok w', add_vinyl engine i o v vv cur w = (Returned ok, w')
           ∧ grows (exec_in Noise) w w'.
Proof.
  intros Hcur. unfold add_vinyl.
  assert (∀ w0 : World, fs w0 = fs w → grows (exec_in Noise) w w0 →
    ∃ w', (if bool_decide (cur ≠ i) then os_rename cur o else ret ()) w0
          = (Returned (), w') ∧ grows (exec_in Noise) w w') as Hrename.
  { intros w0 Hfs Hgrow. case_bool_decide as Hne; [| by eexists].
    destruct Hcur as [-> | [f Hf]]; [done |].
    unfold os_rename. rewrite Hfs, Hf. eexists; split; [done |].
    eapply grows_trans; [done |]. by apply grows_log; repeat constructor. }
  destruct (truthy_str v) as [vinyl |];
    unfold bind, print, emit, os_path_exists; simpl.
  - destruct (bool_decide (is_Some (fs w !! vinyl))); simpl.
    + rewrite run_ffmpeg_eq; simpl.
      destruct (engine_ok engine _ _); simpl; do 2 eexists;
        (split; [done |]); by apply grows_log; repeat constructor.
    + edestruct (Hrename (mkWorld (fs w) (log w ++ [Print (WarnVinylMissing vinyl)])))
        as (w' & -> & Hg); [done | by apply grows_log; repeat constructor |].
      by do 2 eexists.
  - destruct (decide (cur ≠ i)) as [Hne | Heq].
    + destruct (Hrename w eq_refl (grows_refl _ _)) as (w' & Hr & Hg).
      rewrite bool_decide_true in Hr |- * by done. rewrite Hr. by do 2 eexists.
    + rewrite bool_decide_false by done. rewrite run_ffmpeg_eq; simpl.
      destruct (engine_ok engine _ _); simpl; do 2 eexists;
        (split; [done |]); by apply grows_log; repeat constructor.
Qed.

(** The noise stage never raises, and every engine command it issues is
    a command of the noise stage. *)
Lemma step3_add_noise_returns i o r v rv vv w :
  ∃ ok w', step3_add_noise engine i o r v rv vv w = (Returned ok, w')
           ∧ grows (exec_in Noise) w w'.
Proof.
  unfold step3_add_noise.
  destruct (truthy_str r) as [rain |];
    unfold bind, ret, print, emit, os_path_exists; simpl.
  - destruct (bool_decide (is_Some (fs w !! rain))); simpl.
    + rewrite run_ffmpeg_eq; simpl.
      destruct (engine_ok engine _ _) eqn:Hok; simpl.
      * edestruct add_vinyl_returns as (ok & w' & -> & Hg).
        { right. simpl. by apply fs_after_ok. }
        do 2 eexists; split; [done |].
        eapply grows_trans; [| done]. by apply grows_log; repeat constructor.
      * do 2 eexists; split; [done |]. by apply grows_log; repeat constructor.
    + edestruct add_vinyl_returns as (ok & w' & -> & Hg); [by left |].
      do 2 eexists; split; [done |].
      eapply grows_trans; [| done]. by apply grows_log; repeat constructor.
  - apply add_vinyl_returns. by left.
Qed.

Lemma run_ffmpeg_returns c d w :
  ∃ ok w', run_ffmpeg engine c d w = (Returned ok, w')
           ∧ grows (exec_in (stage_of c)) w w'.
Proof.
  rewrite run_ffmpeg_eq. do 2 eexists; split; [done |].
  by apply grows_log; repeat constructor.
Qed.

Lemma grows_warning P w (b : bool) (e : Event) :
  P e → grows P w (if b then mkWorld (fs w) (log w ++ [e]) else w).
Proof.
  intros He. destruct b; [| apply grows_refl]. by apply grows_log; repeat constructor.
Qed.

(** Every stage of the state machine returns, and the engine commands it
    issues belong to it. *)
Lemma pipeline_stage_returns j s st w :
  (s, st) ∈ pipeline_stages engine j →
  ∃ ok w', st w = (Returned ok, w') ∧ grows (exec_in s) w w'.
Proof.
  unfold pipeline_stages. rewrite !elem_of_app, !elem_of_cons.
  intros [[Hs | [Hs | [Hs | Hs]]] | [[Hs | Hs] | Hs]]; try by inversion Hs.
  - injection Hs as -> ->. rewrite step1_change_tempo_eq.
    edestruct run_ffmpeg_returns as (ok & w' & -> & Hg).
    do 2 eexists; split; [done |].
    eapply grows_trans; [| done]. by apply grows_warning.
  - injection Hs as -> ->. rewrite step2_change_pitch_eq.
    edestruct run_ffmpeg_returns as (ok & w' & -> & Hg).
    do 2 eexists; split; [done |].
    eapply grows_trans; [| done]. by apply grows_warning.
  - injection Hs as -> ->. apply step3_add_noise_returns.
  - injection Hs as -> ->. destruct (Job.skip_eq j).
    + do 2 eexists; split; [done |]. by apply grows_log; repeat constructor.
    + apply run_ffmpeg_returns.
  - destruct (truthy_int (Job.loop_count j)) as [n |]; [| by inversion Hs].
    apply list_elem_of_singleton in Hs. injection Hs as -> ->.
    apply run_ffmpeg_returns.
Qed.

(** The walk as a program and the walk as a relation agree. *)
Lemma walk_run_stages l w ok w' :
  walk l w ok w' → run_stages l w = (Returned ok, w').
Proof.
  induction 1 as [w | s st rest w w' Hst | s st rest w w1 ok w' Hst _ IH];
    simpl; unfold bind; [done | by rewrite Hst | by rewrite Hst].
Qed.

Lemma run_stages_walk l w :
  (∀ s st w, (s, st) ∈ l → ∃ ok w', st w = (Returned ok, w')) →
  ∃ ok w', walk l w ok w'.
Proof.
  revert w. induction l as [| [s st] rest IH]; intros w Hl.
  - exists true, w. constructor.
  - destruct (Hl s st w) as ([] & w1 & Hst); [by left | |].
    + destruct (IH w1) as (ok & w' & Hwalk).
      { intros s' st' w0 Hin. apply (Hl s'). by right. }
      exists ok, w'. by eapply walk_next.
    + exists false, w1. by apply walk_failed.
Qed.

Lemma walk_deterministic l w ok1 w1 ok2 w2 :
  walk l w ok1 w1 → walk l w ok2 w2 → ok1 = ok2 ∧ w1 = w2.
Proof.
  intros H1%walk_run_stages H2%walk_run_stages.
  rewrite H1 in H2. by injection H2.
Qed.

(** The engine commands issued along a walk belong to its stages. *)
Lemma walk_grows (P : Event → Prop) l w ok w' :
  (∀ s st w w' r, (s, st) ∈ l → st w = (r, w') → grows P w w') →
  walk l w ok w' → grows P w w'.
Proof.
  intros Hl Hwalk.
  induction Hwalk as [w | s st rest w w' Hst | s st rest w w1 ok w' Hst _ IH].
  - apply grows_refl.
  - eapply (Hl s); [by left | done].
  - eapply grows_trans; [eapply (Hl s); [by left | done] |].
    apply IH. intros s' st' w0 w0' r Hin. apply (Hl s'). by right.
Qed.

(** Every run walks through the stages of the state machine. *)
Lemma pipeline_walk j w : ∃ ok w', walk (pipeline_stages engine j) w ok w'.
Proof.
  apply run_stages_walk. intros s st w0 Hin.
  destruct (pipeline_stage_returns j s st w0 Hin) as (ok & w' & ? & _). eauto.
Qed.

(** The body of the clean-up loop: it returns, it runs no engine command
    and it leaves every other file alone. *)
Lemma cleanup_body_returns file w :
  ∃ w',
    (present ← os_path_exists file;
     if present then
       try_except (os_remove remove_denied file ;; print (MsgRemoved file))
         is_Exception (λ e, print (MsgCouldNotRemove file e))
     else ret ()) w = (Returned (), w')
    ∧ grows no_exec w w'
    ∧ ∀ path, path ≠ file → fs w' !! path = fs w !! path.
Proof.
  unfold bind, os_path_exists, try_except, os_remove, print, emit, ret; simpl.
  destruct (fs w !! file) as [f |] eqn:Hf; simpl.
  - destruct (remove_denied file (fs w)); rewrite ?Hf; simpl.
    + eexists; split_and!; [done | by apply grows_log; repeat constructor | done].
    + eexists; split_and!; [done | |].
      * rewrite <- (assoc_L (++)). by apply grows_log; repeat constructor.
      * intros path Hne; simpl. by rewrite lookup_delete_ne.
  - eexists; split_and!; [done | apply grows_refl | done].
Qed.

(** The clean-up: it returns, it runs no engine command, and it touches
    no file but those of its list; none at all when they are kept. *)
Lemma cleanup_intermediate_files_returns keep files w :
  ∃ w',
    cleanup_intermediate_files remove_denied keep files w = (Returned (), w')
    ∧ grows no_exec w w'
    ∧ ∀ path, keep = true ∨ path ∉ files → fs w' !! path = fs w !! path.
Proof.
  unfold cleanup_intermediate_files. destruct keep; cbv beta iota delta [negb].
  { eexists; split_and!; [done | by apply grows_log; repeat constructor | done]. }
  unfold bind at 1. unfold print at 1, emit at 1. cbv beta iota.
  set (w0 := mkWorld (fs w) (log w ++ [Print MsgCleaning])).
  assert (grows no_exec w w0) as Hw0 by (by apply grows_log; repeat constructor).
  change (fs w) with (fs w0). clearbody w0. revert w0 Hw0.
  induction files as [| file files IH]; intros w0 Hw0; simpl.
  - by eexists.
  - unfold bind at 1. cbv beta.
    destruct (cleanup_body_returns file w0) as (w1 & -> & Hg1 & Hfs1).
    destruct (IH w1) as (w' & -> & Hg & Hfs); [by eapply grows_trans |].
    eexists; split_and!; [done | done |].
    intros path [? | Hnotin]; [done |].
    apply not_elem_of_cons in Hnotin as [Hne Hnotin].
    rewrite Hfs by (by right). by apply Hfs1.
Qed.

Lemma bind_run {A B} (m : M A) (k : A → M B) w :
  bind m k w = match m w with
               | (Returned a, w') => k a w'
               | (Raised e, w') => (Raised e, w')
               end.
Proof. reflexivity. Qed.

Lemma grows_elem_of P w w' e : grows P w w' → e ∈ log w → e ∈ log w'.
Proof. intros (new & -> & _) He. apply elem_of_app. by left. Qed.

(** The conclusion of a run: either the move of [final_file] finds no
    file and raises, or the run reports success; then no engine command
    was run, the move (when there is one) is in the log, and outside the
    clean-up list the files are those left by the move. *)
Lemma conclude_returns j w :
  (truthy_int (Job.loop_count j) = None
   ∧ final_file j ≠ Job.output_file j
   ∧ fs w !! final_file j = None
   ∧ conclude remove_denied j w = (Raised (FileNotFoundError (final_file j)), w))
  ∨ ∃ w',
      conclude remove_denied j w = (Returned (true, Some (Job.output_file j)), w')
      ∧ grows no_exec w w'
      ∧ (truthy_int (Job.loop_count j) = None →
         final_file j ≠ Job.output_file j →
         is_Some (fs w !! final_file j)
         ∧ Rename (final_file j) (Job.output_file j) ∈ log w')
      ∧ ∀ path, Job.keep_intermediate j = true ∨ path ∉ cleanup_files j →
                fs w' !! path = fs_moved j (fs w) !! path.
Proof.
  unfold conclude, fs_moved.
  assert (∀ w0 : World,
    ∃ w', (print (MsgComplete (Job.output_file j)) ;;
           cleanup_intermediate_files remove_denied (Job.keep_intermediate j)
             (cleanup_files j) ;;
           ret (true, Some (Job.output_file j))) w0
          = (Returned (true, Some (Job.output_file j)), w')
        ∧ grows no_exec w0 w'
        ∧ ∀ path, Job.keep_intermediate j = true ∨ path ∉ cleanup_files j →
                  fs w' !! path = fs w0 !! path) as Hrest.
  { intros w0. rewrite bind_run. unfold print at 1, emit at 1.
    rewrite bind_run.
    edestruct cleanup_intermediate_files_returns as (w' & -> & Hg & Hfs).
    eexists; split_and!; [done | | done].
    eapply grows_trans; [| done]. by apply grows_log; repeat constructor. }
  destruct (truthy_int (Job.loop_count j)) as [n |].
  { right. rewrite bind_run. cbv beta iota delta [ret].
    destruct (Hrest w) as (w' & Hw' & ? & ?). by exists w'. }
  destruct (decide (final_file j ≠ Job.output_file j)) as [Hne | Heq].
  - rewrite !bool_decide_true by done. rewrite bind_run. unfold os_rename.
    destruct (fs w !! final_file j) as [f |] eqn:Hf.
    + right. edestruct Hrest as (w' & -> & Hg & Hfs). exists w'.
      split_and!; [done | | | done].
      * eapply grows_trans; [| done]. by apply grows_log; repeat constructor.
      * intros _ _. split; [done |]. eapply grows_elem_of; [done |].
        simpl. apply elem_of_app. right. by left.
    + by left.
  - rewrite !bool_decide_false by done. right.
    rewrite bind_run. cbv beta iota delta [ret].
    destruct (Hrest w) as (w' & Hw' & ? & Hfs). exists w'.
    split_and!; [done | done | done |]. intros path Hp. rewrite Hfs by done.
    by destruct (fs w !! final_file j).
Qed.

(** A run is a walk through the stages; the first failure is reported at
    once, and a walk without failure goes on to the conclusion. *)
Lemma process_job_run j w :
  ∃ ok w_s,
    walk (pipeline_stages engine j) (started j w) ok w_s
    ∧ process_job engine remove_denied j w =
        if ok then conclude remove_denied j w_s else (Returned (false, None), w_s).
Proof.
  destruct (pipeline_walk j (started j w)) as (ok & w_s & Hwalk).
  exists ok, w_s. split; [done |].
  rewrite process_job_eq, bind_run, (walk_run_stages _ _ _ _ Hwalk).
  by destruct ok.
Qed.

(* ===================================================================== *)
(** ** Advisory ranges (C4, C10) *)
(* ===================================================================== *)

(** What the tempo stage returns and leaves, for any factor. *)
Lemma step1_change_tempo_run i o (f : float) w :
  let c := Atempo i o f in
  let run := step1_change_tempo engine i o f w in
  run.1 = Returned (engine_ok engine c (fs w))
  ∧ fs run.2 = fs_after engine c (fs w)
  ∧ log run.2 =
      log w
      ++ (if (f <? 0.97)%float || (1.03 <? f)%float
          then [Print (WarnTempo f)] else [])
      ++ [ Print (MsgRunning (ChangingTempo f));
           Exec c (engine_ok engine c (fs w));
           Print (if engine_ok engine c (fs w)
                  then MsgCompleted (ChangingTempo f)
                  else MsgError (ChangingTempo f) c) ].
Proof.
  cbv zeta. rewrite step1_change_tempo_eq, run_ffmpeg_eq.
  destruct (_ || _); simpl; [by rewrite <- (assoc_L (++)) | done].
Qed.

(** What the pitch stage returns and leaves, for any factor. *)
Lemma step2_change_pitch_run i o (f : float) w :
  let c := Asetrate i o (44100 * f)%float 44100 in
  let run := step2_change_pitch engine i o f w in
  run.1 = Returned (engine_ok engine c (fs w))
  ∧ fs run.2 = fs_after engine c (fs w)
  ∧ log run.2 =
      log w
      ++ (if (f <? 0.99)%float || (1.01 <? f)%float
          then [Print (WarnPitch f)] else [])
      ++ [ Print (MsgRunning (ChangingPitch f));
           Exec c (engine_ok engine c (fs w));
           Print (if engine_ok engine c (fs w)
                  then MsgCompleted (ChangingPitch f)
                  else MsgError (ChangingPitch f) c) ].
Proof.
  cbv zeta. rewrite step2_change_pitch_eq, run_ffmpeg_eq.
  destruct (_ || _); simpl; [by rewrite <- (assoc_L (++)) | done].
Qed.

(** C4.  The tempo and the pitch stage process every factor, in or out of
    the advisory range: whatever the factor, the stage hands the engine
    the command that carries this factor, returns the engine's verdict
    and leaves the engine's file system; nothing is raised.  The range
    only decides whether one warning line precedes the three lines of the
    engine invocation in the log. *)
Theorem out_of_range_factors_are_processed i o (tempo_factor pitch_factor : float) w :
  let tempo_cmd := Atempo i o tempo_factor in
  let pitch_cmd := Asetrate i o (44100 * pitch_factor)%float 44100 in
  let tempo_run := step1_change_tempo engine i o tempo_factor w in
  let pitch_run := step2_change_pitch engine i o pitch_factor w in
  (tempo_run.1 = Returned (engine_ok engine tempo_cmd (fs w))
   ∧ fs tempo_run.2 = fs_after engine tempo_cmd (fs w)
   ∧ log tempo_run.2 =
       log w
       ++ (if (tempo_factor <? 0.97)%float || (1.03 <? tempo_factor)%float
           then [Print (WarnTempo tempo_factor)] else [])
       ++ [ Print (MsgRunning (ChangingTempo tempo_factor));
            Exec tempo_cmd (engine_ok engine tempo_cmd (fs w));
            Print (if engine_ok engine tempo_cmd (fs w)
                   then MsgCompleted (ChangingTempo tempo_factor)
                   else MsgError (ChangingTempo tempo_factor) tempo_cmd) ])
  ∧ (pitch_run.1 = Returned (engine_ok engine pitch_cmd (fs w))
     ∧ fs pitch_run.2 = fs_after engine pitch_cmd (fs w)
     ∧ log pitch_run.2 =
         log w
         ++ (if (pitch_factor <? 0.99)%float || (1.01 <? pitch_factor)%float
             then [Print (WarnPitch pitch_factor)] else [])
         ++ [ Print (MsgRunning (ChangingPitch pitch_factor));
              Exec pitch_cmd (engine_ok engine pitch_cmd (fs w));
              Print (if engine_ok engine pitch_cmd (fs w)
                     then MsgCompleted (ChangingPitch pitch_factor)
                     else MsgError (ChangingPitch pitch_factor) pitch_cmd) ]).
Proof.
  split; [apply step1_change_tempo_run | apply step2_change_pitch_run].
Qed.

(** C10.  The range checks are strict.  The warnings that the tempo stage
    adds to the log are [WarnTempo f] when [f < 0.97] or [1.03 < f] and
    none otherwise, and likewise for the pitch stage with 0.99 and 1.01;
    at the four bounds themselves no warning is printed, while the
    neighbouring floating-point numbers outside the range are warned
    about. *)
Theorem range_warnings_are_strict i o (f : float) w :
  warnings (log (step1_change_tempo engine i o f w).2) =
    warnings (log w)
    ++ (if (f <? 0.97)%float || (1.03 <? f)%float then [WarnTempo f] else [])
  ∧ warnings (log (step2_change_pitch engine i o f w).2) =
      warnings (log w)
      ++ (if (f <? 0.99)%float || (1.01 <? f)%float then [WarnPitch f] else [])
  ∧ ((0.97 <? 0.97)%float || (1.03 <? 0.97)%float = false
     ∧ (1.03 <? 0.97)%float || (1.03 <? 1.03)%float = false
     ∧ (0.99 <? 0.99)%float || (1.01 <? 0.99)%float = false
     ∧ (1.01 <? 0.99)%float || (1.01 <? 1.01)%float = false)
  ∧ ((next_down 0.97 <? 0.97)%float = true
     ∧ (1.03 <? next_up 1.03)%float = true
     ∧ (next_down 0.99 <? 0.99)%float = true
     ∧ (1.01 <? next_up 1.01)%float = true).
Proof.
  split_and!; try reflexivity.
  - destruct (step1_change_tempo_run i o f w) as (_ & _ & ->).
    unfold warnings. rewrite !omap_app.
    destruct (engine_ok _ _ _); destruct (_ || _); simpl;
      by rewrite ?(right_id_L [] (++)).
  - destruct (step2_change_pitch_run i o f w) as (_ & _ & ->).
    unfold warnings. rewrite !omap_app.
    destruct (engine_ok _ _ _); destruct (_ || _); simpl;
      by rewrite ?(right_id_L [] (++)).
Qed.

(* ===================================================================== *)
(** ** The state machine of a run *)
(* ===================================================================== *)






(* ===================================================================== *)
(** ** Where the output comes from (C6, C7, C9) *)
(* ===================================================================== *)

Lemma walk_cons_true s st rest w w' :
  walk ((s, st) :: rest) w true w' →
  ∃ w1, st w = (Returned true, w1) ∧ walk rest w1 true w'.
Proof. inversion 1; subst. eauto. Qed.

Lemma walk_nil_true w w' : walk [] w true w' → w' = w.
Proof. by inversion 1. Qed.

(** A walk without failure, stage by stage. *)
Lemma walk_success j w w_s :
  walk (pipeline_stages engine j) w true w_s →
  ∃ w1 w2 w3 w4,
    step1_change_tempo engine (Job.input_file j) (tempo_file j) (Job.tempo j) w
      = (Returned true, w1)
    ∧ step2_change_pitch engine (tempo_file j) (pitch_file j) (Job.pitch j) w1
        = (Returned true, w2)
    ∧ step3_add_noise engine (pitch_file j) (textured_file j)
        (Job.rain_file j) (Job.vinyl_file j)
        (Job.rain_volume j) (Job.vinyl_volume j) w2
        = (Returned true, w3)
    ∧ (if Job.skip_eq j
       then w4 = mkWorld (fs w3) (log w3 ++ [Print MsgSkippingEQ])
       else step4_apply_eq engine (textured_file j) (eq_file j) w3
              = (Returned true, w4))
    ∧ match truthy_int (Job.loop_count j) with
      | Some n =>
          step5_create_loop engine (final_file j) (Job.output_file j) n
            (Job.use_crossfade j) w4 = (Returned true, w_s)
      | None => w_s = w4
      end.
Proof.
  unfold pipeline_stages; simpl.
  intros (w1 & H1 & (w2 & H2 & (w3 & H3 & (w4 & H4 & H5)%walk_cons_true)
    %walk_cons_true)%walk_cons_true)%walk_cons_true.
  exists w1, w2, w3, w4. split_and!; try done.
  - destruct (Job.skip_eq j); [| done]. by injection H4 as <-.
  - destruct (truthy_int (Job.loop_count j)).
    + apply walk_cons_true in H5 as (w5 & H5 & ->%walk_nil_true). done.
    + by apply walk_nil_true in H5.
Qed.

(** A run that reports success: the walk met no failure, and the
    conclusion followed. *)
Lemma process_job_success j w p w' :
  process_job engine remove_denied j w = (Returned (true, p), w') →
  p = Some (Job.output_file j)
  ∧ ∃ w_s,
      walk (pipeline_stages engine j) (started j w) true w_s
      ∧ grows no_exec w_s w'
      ∧ (truthy_int (Job.loop_count j) = None →
         final_file j ≠ Job.output_file j →
         is_Some (fs w_s !! final_file j)
         ∧ Rename (final_file j) (Job.output_file j) ∈ log w')
      ∧ ∀ path, Job.keep_intermediate j = true ∨ path ∉ cleanup_files j →
                fs w' !! path = fs_moved j (fs w_s) !! path.
Proof.
  destruct (process_job_run j w) as ([] & w_s & Hwalk & ->); [| done].
  destruct (conclude_returns j w_s)
    as [(_ & _ & _ & ->) | (w'' & -> & Hg & Hmove & Hfs)]; [done |].
  intros [= <- <-]. split; [done |]. by exists w_s.
Qed.









Lemma list_remove_first_elem_of x y l : x ∈ list_remove_first y l → x ∈ l.
Proof.
  induction l as [| z l IH]; [done |]. simpl. case_decide.
  - by right.
  - intros [-> | Hin]%elem_of_cons; [by left | right; by apply IH].
Qed.

Lemma cleanup_files_recorded j path : path ∈ cleanup_files j → path ∈ recorded_files j.
Proof.
  unfold cleanup_files. destruct (truthy_int _); [done |].
  case_bool_decide; [apply list_remove_first_elem_of | done].
Qed.



(* ===================================================================== *)
(** ** Where the code departs from the specification (C1, C2) *)
(* ===================================================================== *)

(** X10.  The noise stage with a vinyl file that is given but missing,
    and no rain mix (no rain file given, or the one given is missing): the
    stage prints its warnings, reports success, runs no engine command
    and writes no file. *)
Lemma step3_add_noise_missing_vinyl i o r v rv vv w vinyl :
  truthy_str v = Some vinyl → fs w !! vinyl = None →
  (truthy_str r = None ∨ ∃ rain, truthy_str r = Some rain ∧ fs w !! rain = None) →
  ∃ w', step3_add_noise engine i o r v rv vv w = (Returned true, w')
        ∧ fs w' = fs w ∧ grows no_exec w w'.
Proof.
  intros Hv Hvinyl Hr.
  assert (∀ w0 : World, fs w0 = fs w → grows no_exec w w0 →
    ∃ w', add_vinyl engine i o v vv i w0 = (Returned true, w')
          ∧ fs w' = fs w ∧ grows no_exec w w') as Hadd.
  { intros w0 Hfs Hg. unfold add_vinyl. rewrite Hv, bind_run.
    unfold os_path_exists at 1. rewrite Hfs, bool_decide_false by (by rewrite Hvinyl; intros [? ?]).
    rewrite bind_run. unfold print at 1, emit at 1.
    rewrite bool_decide_false by (by intros ?). rewrite bind_run.
    eexists; split_and!; [done | done |].
    eapply grows_trans; [done |]. by apply grows_log; repeat constructor. }
  unfold step3_add_noise. destruct Hr as [-> | (rain & -> & Hrain)].
  - apply Hadd; [done | apply grows_refl].
  - rewrite bind_run. unfold os_path_exists at 1.
    rewrite bool_decide_false by (by rewrite Hrain; intros [? ?]).
    rewrite bind_run. unfold print at 1, emit at 1.
    apply Hadd; [done | by apply grows_log; repeat constructor].
Qed.

(** X11.  A noise stage that reports success has written its target,
    except when the vinyl file is given but missing and there is no rain
    mix to rename (no rain file given, the one given missing, or a target
    whose rain mix would be the input itself). *)
Lemma step3_add_noise_output i o r v rv vv w w' :
  step3_add_noise engine i o r v rv vv w = (Returned true, w') →
  is_Some (fs w' !! o)
  ∨ ∃ vinyl, truthy_str v = Some vinyl ∧ fs w' !! vinyl = None
             ∧ (truthy_str r = None
                ∨ (∃ rain, truthy_str r = Some rain ∧ fs w !! rain = None)
                ∨ Str.replace ".wav" "_rain.wav" o = i).
Proof.
  assert (∀ cur (w0 : World),
    cur = i ∨ is_Some (fs w0 !! cur) →
    add_vinyl engine i o v vv cur w0 = (Returned true, w') →
    is_Some (fs w' !! o)
    ∨ ∃ vinyl, truthy_str v = Some vinyl ∧ fs w' !! vinyl = None
               ∧ cur = i ∧ fs w' = fs w0) as Hadd.
  { intros cur w0 Hcur. unfold add_vinyl.
    destruct (truthy_str v) as [vinyl |].
    - rewrite bind_run. unfold os_path_exists at 1.
      destruct (fs w0 !! vinyl) as [f |] eqn:Hvinyl.
      + rewrite bool_decide_true by done. rewrite bind_run, run_ffmpeg_eq.
        destruct (engine_ok engine _ _) eqn:Hok; [| done].
        intros [= <-]. left. by apply (fs_after_ok (Amix cur vinyl vv o)).
      + rewrite bool_decide_false by (by intros [? ?]).
        rewrite bind_run. unfold print at 1, emit at 1. rewrite bind_run.
        case_bool_decide as Hne.
        * destruct Hcur as [-> | [f Hf]]; [done |]. unfold os_rename.
          cbn [fs]. rewrite Hf. intros [= <-]. left. cbn [fs].
          rewrite lookup_insert_eq. by eexists.
        * intros [= <-]. right. exists vinyl. cbn [fs].
          split_and!; [done | done | | done].
          destruct (decide (cur = i)); [done |]. by destruct Hne.
    - case_bool_decide as Hne.
      + destruct Hcur as [-> | [f Hf]]; [done |]. rewrite bind_run.
        unfold os_rename. rewrite Hf. intros [= <-]. left. cbn [fs].
        rewrite lookup_insert_eq. by eexists.
      + rewrite bind_run, run_ffmpeg_eq.
        destruct (engine_ok engine _ _) eqn:Hok; [| done].
        intros [= <-]. left. by apply (fs_after_ok (Reencode i o)). }
  unfold step3_add_noise. destruct (truthy_str r) as [rain |].
  - rewrite bind_run. unfold os_path_exists at 1.
    destruct (fs w !! rain) as [f |] eqn:Hrain.
    + rewrite bool_decide_true by done. rewrite bind_run, run_ffmpeg_eq.
      destruct (engine_ok engine _ _) eqn:Hok; [| done]. cbn [negb].
      intros [? | (vinyl & ? & ? & ? & ?)]%Hadd; [by left | |].
      * right. exists vinyl. split_and!; [done | done |]. by do 2 right.
      * right. cbn [fs]. by apply (fs_after_ok (Amix i rain rv _)).
    + rewrite bool_decide_false by (by intros [? ?]).
      rewrite bind_run. unfold print at 1, emit at 1.
      intros [? | (vinyl & ? & ? & ? & ?)]%Hadd; [by left | | by left].
      right. exists vinyl. split_and!; [done | done |]. right; left. by exists rain.
  - intros [? | (vinyl & ? & ? & ? & ?)]%Hadd; [by left | | by left].
    right. exists vinyl. split_and!; [done | done |]. by left.
Qed.

(** X3.  A run that reports failure returns no output path and has
    deleted nothing: the early returns of [process_single_file] skip the
    clean-up. *)
Lemma failed_run_skips_cleanup j w p w' :
  process_job engine remove_denied j w = (Returned (false, p), w') →
  p = None ∧ grows (λ e, ∀ path, e ≠ Remove path) w w'.
Proof.
  destruct (process_job_run j w) as ([] & w_s & Hwalk & ->).
  { by destruct (conclude_returns j w_s) as [(_ & _ & _ & ->) | (w'' & -> & _)]. }
  intros [= <- <-]. split; [done |].
  apply grows_trans with (started j w); [by apply grows_log; repeat constructor |].
  eapply walk_grows; [| done]. intros s st w1 w2 r Hin Hst.
  destruct (pipeline_stage_returns j s st w1 Hin) as (ok & w2' & Hst' & Hg).
  rewrite Hst in Hst'. injection Hst' as -> ->.
  eapply grows_mono; [| done]. intros e He. by destruct e.
Qed.

End StageFacts.

(* ===================================================================== *)
(** ** The batch (C8) *)
(* ===================================================================== *)

Section BatchFacts.

Context {File : Type}.
Local Open Scope pipeline_scope.

Variable engine : Command → gmap string File → EngineResult File.
Variable remove_denied : string → gmap string File → bool.

Local Abbreviation World := (World File).

Lemma lex_leb_total l1 l2 :
  PurePath.lex_leb l1 l2 = true ∨ PurePath.lex_leb l2 l1 = true.
Proof.
  revert l2. induction l1 as [| x l1 IH]; intros [| y l2]; simpl; auto.
  rewrite (String.compare_antisym x y).
  destruct (String.compare y x); simpl; auto.
Qed.

#[local] Instance path_le_total : Total PurePath.le.
Proof. intros p q. apply lex_leb_total. Qed.




Lemma count_successes_cons success successes :
  count_successes (success :: successes)
  = (if success then 1 else 0) + count_successes successes.
Proof. by destruct success. Qed.

(** The loop returns exactly when every run returns; it then has counted
    the runs that reported success. *)
Lemma batch_loop_returns args files success_count w total w' :
  batch_loop engine remove_denied args files success_count w = (Returned total, w')
  ↔ ∃ successes,
      batch_runs engine remove_denied args files w successes w'
      ∧ total = success_count + count_successes successes.
Proof.
  revert success_count w. induction files as [| audio_file rest IH];
    intros success_count w; simpl.
  - split.
    + intros [= <- <-]. exists []. split; [constructor |].
      unfold count_successes; simpl; lia.
    + intros (successes & Hruns & ->). inversion Hruns; subst.
      unfold ret. f_equal. f_equal. unfold count_successes; simpl. lia.
  - rewrite bind_run. split.
    + destruct (process_audio_file _ _ _ _ w) as [[[success final] | e] w1] eqn:Hrun;
        [| done].
      intros (successes & Hruns & ->)%IH. exists (success :: successes). split.
      * by econstructor.
      * rewrite count_successes_cons. simpl. destruct success; lia.
    + intros (successes & Hruns & ->). inversion Hruns as [| ? ? ? success final w1 ss ? Hrun Hrest]; subst.
      rewrite Hrun. apply IH. exists ss. split; [done |].
      rewrite count_successes_cons. simpl. destruct success; lia.
Qed.



End BatchFacts.


(* ===================================================================== *)
(** ** Concrete runs *)
(* ===================================================================== *)

Module Runs.
Import Example.

(** C1, at a failing input.  The rain and the vinyl file are given (the
    defaults of the command line) but neither exists: the noise stage
    reports success although its target has not been written, where the
    specification demands a copy of the input. *)
Lemma noise_stage_without_assets_writes_nothing :
  let w := boot {[ "song_pitch.wav" := Sound 2 ]} in
  let run :=
    step3_add_noise ffmpeg "song_pitch.wav" "song_textured.wav"
      (Some "rain.wav") (Some "vinyl.wav") 0.05 0.03 w in
  run.1 = Returned true
  ∧ fs run.2 !! "song_textured.wav" = None
  ∧ fs run.2 = fs w.
Proof. by vm_compute. Qed.

(** The sibling branch: with no vinyl file given at all, the same stage
    does copy its input to the target. *)
Lemma noise_stage_without_options_copies :
  let w := boot {[ "song_pitch.wav" := Sound 2 ]} in
  let run :=
    step3_add_noise ffmpeg "song_pitch.wav" "song_textured.wav"
      None None 0.05 0.03 w in
  run.1 = Returned true
  ∧ fs run.2 !! "song_textured.wav" = Some (Sound 3).
Proof. by vm_compute. Qed.

(** The consequence for a whole run with the defaults of the command
    line and no noise assets: the EQ stage finds no input and the run
    fails. *)
Lemma default_run_without_assets_fails :
  let run := process_job ffmpeg never_denied cli_job (boot disk) in
  run.1 = Returned (false, None)
  ∧ execs (log run.2)
    = [ (Atempo "song.mp3" "song_tempo.wav" 0.975, true);
        (Asetrate "song_tempo.wav" "song_pitch.wav" (44100 * 0.99) 44100, true);
        (Equalizer "song_textured.wav" "song_final.wav", false) ].
Proof. by vm_compute. Qed.

(** C3, at a failing input.  [python process_audio.py song.mp3 --skip-eq]
    in a directory without noise assets: the tempo, pitch and noise
    stages run in order and all report success, EQ is skipped, no loop is
    requested, and the run then neither returns [(True, output_file)]
    nor [(False, None)]: the final rename raises [FileNotFoundError]. *)
Lemma skip_eq_run_without_assets_raises :
  let j := skip_eq_job in
  let w := started j (boot disk) in
  let w1 := (step1_change_tempo ffmpeg (Job.input_file j) (tempo_file j)
               (Job.tempo j) w).2 in
  let w2 := (step2_change_pitch ffmpeg (tempo_file j) (pitch_file j)
               (Job.pitch j) w1).2 in
  (step1_change_tempo ffmpeg (Job.input_file j) (tempo_file j) (Job.tempo j) w).1
    = Returned true
  ∧ (step2_change_pitch ffmpeg (tempo_file j) (pitch_file j) (Job.pitch j) w1).1
    = Returned true
  ∧ (step3_add_noise ffmpeg (pitch_file j) (textured_file j) (Job.rain_file j)
       (Job.vinyl_file j) (Job.rain_volume j) (Job.vinyl_volume j) w2).1
    = Returned true
  ∧ Job.skip_eq j = true
  ∧ truthy_int (Job.loop_count j) = None
  ∧ (process_job ffmpeg never_denied j (boot disk)).1
    = Raised (FileNotFoundError "song_textured.wav").
Proof. by vm_compute. Qed.

(** C2, at a failing input.  The pitch stage fails and intermediates are
    not to be kept: the run reports failure, and the file that the tempo
    stage created is still there when it returns. *)
Lemma failed_run_leaves_tempo_file :
  let run :=
    process_job ffmpeg_without_asetrate never_denied cli_job (boot disk_with_noise) in
  Job.keep_intermediate cli_job = false
  ∧ run.1 = Returned (false, None)
  ∧ fs run.2 !! tempo_file cli_job = Some (Sound 1)
  ∧ execs (log run.2)
    = [ (Atempo "song.mp3" "song_tempo.wav" 0.975, true);
        (Asetrate "song_tempo.wav" "song_pitch.wav" (44100 * 0.99) 44100, false) ].
Proof. by vm_compute. Qed.

(** C5, at a failing input.  For the base name ["a.wav"] (the stem of
    ["a.wav.mp3"]) in the directory ["music"], the rain mix is not named
    [music/a.wav_<tag>.wav]: the replacement also rewrites the base
    name. *)
Lemma rain_output_rewrites_base_name :
  let dir := PurePath.Path "music" in
  let textured := stage_file dir "a.wav" "textured" in
  let rain_mix := Str.replace ".wav" "_rain.wav" textured in
  PurePath.stem (PurePath.Path "music/a.wav.mp3") = "a.wav"
  ∧ textured = "music/a.wav_textured.wav"
  ∧ rain_mix = "music/a_rain.wav_textured_rain.wav"
  ∧ rain_mix ≠ stage_file dir "a.wav" "textured_rain"
  ∧ String.prefix "music/a.wav_" rain_mix = false.
Proof. by vm_compute. Qed.

(** The same replacement moves the rain mix out of a working directory
    whose name contains [".wav"]. *)
Lemma rain_output_rewrites_work_dir :
  let dir := PurePath.Path "my.wav" in
  let textured := stage_file dir "song" "textured" in
  let rain_mix := Str.replace ".wav" "_rain.wav" textured in
  textured = "my.wav/song_textured.wav"
  ∧ rain_mix = "my_rain.wav/song_textured_rain.wav".
Proof. by vm_compute. Qed.



(** The batch of the specification: three sound files and one that is no
    audio give the summary "3/4". *)
Lemma batch_three_of_four :
  let run :=
    music_folder_batch ffmpeg never_denied cli_args (rev globbed)
      (boot music_folder) in
  run.1 = Returned ()
  ∧ last (log run.2) = Some (Print (MsgBatchComplete 3 4)).
Proof. by vm_compute. Qed.





End Runs.


(* ===================================================================== *)
(** ** What a run leaves on disk *)
(* ===================================================================== *)

Section RunFacts.

Context {File : Type}.
Local Open Scope pipeline_scope.

Variable engine : Command → gmap string File → EngineResult File.
Variable remove_denied : string → gmap string File → bool.

Local Abbreviation World := (World File).

Implicit Types (w : World) (c : Command) (d : Description).











(** One turn of the clean-up loop leaves a missing file missing, and
    deletes its file when the system does not refuse. *)
Lemma cleanup_body_absent file w path :
  fs w !! path = None ∨ (path = file ∧ ∀ m, remove_denied file m = false) →
  fs ((present ← os_path_exists file;
       if present then
         try_except (os_remove remove_denied file ;; print (MsgRemoved file))
           is_Exception (λ e, print (MsgCouldNotRemove file e))
       else ret ()) w).2 !! path = None.
Proof.
  intros Hp. unfold bind, os_path_exists, try_except, os_remove, print, emit, ret; simpl.
  destruct (fs w !! file) as [f |] eqn:Hf; simpl.
  - destruct (remove_denied file (fs w)) eqn:Hd; rewrite ?Hf; simpl.
    + destruct Hp as [Hp | [-> Hnd]]; [done | by rewrite Hnd in Hd].
    + destruct (decide (path = file)) as [-> | Hne]; [apply lookup_delete_eq |].
      rewrite lookup_delete_ne by done. by destruct Hp as [Hp | [-> _]].
  - by destruct Hp as [Hp | [-> _]].
Qed.

Lemma cleanup_loop_absent files w path :
  fs w !! path = None ∨ (path ∈ files ∧ ∀ m, remove_denied path m = false) →
  fs (for_each files (λ file,
        present ← os_path_exists file;
        if present then
          try_except (os_remove remove_denied file ;; print (MsgRemoved file))
            is_Exception (λ e, print (MsgCouldNotRemove file e))
        else ret ()) w).2 !! path = None.
Proof.
  revert w. induction files as [| file files IH]; intros w Hp; simpl.
  - destruct Hp as [Hp | [Hin _]]; [done | by apply elem_of_nil in Hin].
  - unfold bind at 1. cbv beta.
    pose proof (cleanup_body_absent file w path) as Hbody.
    destruct (cleanup_body_returns remove_denied file w) as (w1 & Hw1 & _ & _).
    rewrite Hw1 in Hbody |- *. cbn [snd] in Hbody. apply IH.
    destruct Hp as [Hp | [[-> | Hin]%elem_of_cons Hnd]]; auto.
Qed.

(** Unless intermediates are kept, the clean-up deletes every file of
    its list that the system lets it delete. *)
Lemma cleanup_intermediate_files_absent files w path :
  path ∈ files → (∀ m, remove_denied path m = false) →
  fs (cleanup_intermediate_files remove_denied false files w).2 !! path = None.
Proof.
  intros Hin Hnd. unfold cleanup_intermediate_files. cbv beta iota delta [negb].
  unfold bind at 1. unfold print at 1, emit at 1. cbv beta iota.
  apply cleanup_loop_absent. by right.
Qed.

(** X8.  The clean-up never raises, not even when the system refuses to
    delete a file: it always returns, it runs no engine command, and a
    file that is not on its list is left as it was.  When intermediates
    are kept no file is touched at all; when they are not, every path of
    the list whose deletion the system does not refuse holds no file
    afterwards. *)
Theorem cleanup_never_raises keep files w :
  ∃ w',
    cleanup_intermediate_files remove_denied keep files w = (Returned (), w')
    ∧ execs (log w') = execs (log w)
    ∧ (∀ path, path ∉ files → fs w' !! path = fs w !! path)
    ∧ (keep = true → fs w' = fs w ∧ removals (log w') = removals (log w))
    ∧ (keep = false →
       ∀ path, path ∈ files → (∀ m, remove_denied path m = false) →
               fs w' !! path = None).
Proof.
  destruct (cleanup_intermediate_files_returns remove_denied keep files w)
    as (w' & Hrun & Hg & Hfs).
  exists w'. split_and!; [done | by apply grows_no_exec | by auto | |].
  - intros ->. revert Hrun. unfold cleanup_intermediate_files. simpl.
    unfold print, emit. intros [= <-]. simpl. split; [done |].
    unfold removals. rewrite omap_app. simpl. by rewrite (right_id_L [] (++)).
  - intros -> path Hin Hnd.
    pose proof (cleanup_intermediate_files_absent files w path Hin Hnd) as Habs.
    by rewrite Hrun in Habs.
Qed.






Lemma run_ffmpeg_true c d w w' :
  run_ffmpeg engine c d w = (Returned true, w') →
  is_Some (fs w' !! output_of c).
Proof.
  rewrite run_ffmpeg_eq. intros [= Hok <-]. by apply fs_after_ok.
Qed.

(** The output path of a run whose output is none of its intermediates
    is not on the clean-up list and differs from [final_file]. *)
Lemma output_file_apart j :
  Job.output_file j ∉ [tempo_file j; pitch_file j; textured_file j; eq_file j] →
  (Job.output_file j ∉ cleanup_files j) ∧ final_file j ≠ Job.output_file j.
Proof.
  rewrite !not_elem_of_cons. intros (Ht & Hp & Hx & He & _). split.
  - intros Hin%cleanup_files_recorded. revert Hin. unfold recorded_files.
    rewrite elem_of_app, !elem_of_cons.
    intros [[? | [? | [? | Hin]]] | Hin]; try done.
    + by apply elem_of_nil in Hin.
    + destruct (Job.skip_eq j); [by apply elem_of_nil in Hin |].
      by apply list_elem_of_singleton in Hin.
  - unfold final_file. by destruct (Job.skip_eq j).
Qed.

(** A run that reports success has produced its output, when the output
    path is neither on the clean-up list nor that of [final_file]. *)
Lemma process_job_writes_output j w p w' :
  Job.output_file j ∉ cleanup_files j →
  final_file j ≠ Job.output_file j →
  process_job engine remove_denied j w = (Returned (true, p), w') →
  p = Some (Job.output_file j) ∧ is_Some (fs w' !! Job.output_file j).
Proof.
  intros Hclean Hne (-> & w_s & Hwalk & _ & Hmove & Hfs)%process_job_success.
  split; [done |]. rewrite Hfs by auto. unfold fs_moved.
  apply walk_success in Hwalk as (_ & _ & _ & w4 & _ & _ & _ & _ & H5).
  destruct (truthy_int (Job.loop_count j)) as [n |].
  - by apply run_ffmpeg_true in H5.
  - destruct (Hmove eq_refl Hne) as [[f ->] _].
    rewrite bool_decide_true by done. rewrite lookup_insert_eq. by eexists.
Qed.






(** An output path that ends with ["_processed.wav"] is none of the
    intermediate paths of its run. *)
Lemma processed_output_apart j :
  Str.ends_with (Job.output_file j) "_processed.wav" →
  Job.output_file j ∉ [tempo_file j; pitch_file j; textured_file j; eq_file j].
Proof.
  intros Ho%(StrFacts.ends_with_tail _ "_proc" "essed.wav").
  pose proof (PathFacts.tempo_file_suffix j) as H1.
  pose proof (PathFacts.pitch_file_suffix j) as H2.
  pose proof (PathFacts.textured_file_suffix j) as H3.
  pose proof (PathFacts.eq_file_suffix j) as H4.
  rewrite !not_elem_of_cons. split_and!; try apply not_elem_of_nil;
    intros Heq; rewrite Heq in Ho;
    match goal with
    | Ha : Str.ends_with ?s ?t1, Hb : Str.ends_with ?s "essed.wav" |- _ =>
        by pose proof (StrFacts.ends_with_inj s t1 "essed.wav" Ha Hb eq_refl)
    end.
Qed.

(** X14.  In the music-folder batch a run that reports success has left
    its output, [music/<stem>_processed.wav], on disk: that name is never
    one of the run's intermediate names, so neither the final rename nor
    the clean-up can take the file away. *)
Theorem batch_run_writes_output args audio_file w p w' :
  let output_file :=
    PurePath.str (PurePath.joinpath music_dir
                    (PurePath.stem audio_file +:+ "_processed.wav")) in
  process_audio_file engine remove_denied args audio_file w
    = (Returned (true, p), w') →
  p = Some output_file ∧ is_Some (fs w' !! output_file).
Proof.
  intros output_file Hrun.
  set (j := {| Job.input_file := PurePath.str audio_file;
               Job.output_file := output_file;
               Job.tempo := args_tempo args;
               Job.pitch := args_pitch args;
               Job.rain_file := args_rain args;
               Job.vinyl_file := args_vinyl args;
               Job.rain_volume := args_rain_volume args;
               Job.vinyl_volume := args_vinyl_volume args;
               Job.loop_count := args_loop args;
               Job.use_crossfade := negb (args_no_crossfade args);
               Job.skip_eq := args_skip_eq args;
               Job.keep_intermediate := args_keep_intermediate args;
               Job.base_name := Some (PurePath.stem audio_file);
               Job.work_dir := Some (PurePath.str music_dir) |}).
  assert (Str.ends_with (Job.output_file j) "_processed.wav") as Hend.
  { apply PathFacts.str_joinpath_ends_with; [done | simpl; lia]. }
  apply processed_output_apart, output_file_apart in Hend as [Hclean Hne].
  by apply (process_job_writes_output j w p w').
Qed.

(** *** Fail fast *)













(** X12.  Whatever the input path, the base name and the working
    directory, the intermediate paths of a run end with [_tempo.wav],
    [_pitch.wav], [_textured.wav], [_final.wav] and, for the rain mix,
    [_rain.wav]; so the five paths are pairwise different and no stage
    overwrites the output of another. *)
Theorem stage_paths_never_collide j :
  Str.ends_with (tempo_file j) "_tempo.wav"
  ∧ Str.ends_with (pitch_file j) "_pitch.wav"
  ∧ Str.ends_with (textured_file j) "_textured.wav"
  ∧ Str.ends_with (eq_file j) "_final.wav"
  ∧ Str.ends_with (rain_output j) "_rain.wav"
  ∧ NoDup [tempo_file j; pitch_file j; textured_file j; eq_file j; rain_output j].
Proof.
  split_and!.
  - by apply (PathFacts.stage_file_ends_with _ _ "tempo").
  - by apply (PathFacts.stage_file_ends_with _ _ "pitch").
  - by apply (PathFacts.stage_file_ends_with _ _ "textured").
  - by apply (PathFacts.stage_file_ends_with _ _ "final").
  - apply PathFacts.rain_output_suffix.
  - apply PathFacts.intermediate_files_distinct.
Qed.

(** X13.  The crossfade option is never looked at: the loop stage builds
    the same command whatever its value, so two calls of
    [process_single_file] that differ in nothing but [use_crossfade]
    behave alike in every world. *)
Theorem crossfade_option_is_ignored i o (tempo pitch : float) r v
    (rain_volume vinyl_volume : float) loop_count use_crossfade use_crossfade'
    skip_eq keep base_name work_dir (n : Z) w :
  step5_create_loop engine i o n use_crossfade w
  = step5_create_loop engine i o n use_crossfade' w
  ∧ process_single_file engine remove_denied i o tempo pitch r v
      rain_volume vinyl_volume loop_count use_crossfade skip_eq keep
      base_name work_dir w
    = process_single_file engine remove_denied i o tempo pitch r v
        rain_volume vinyl_volume loop_count use_crossfade' skip_eq keep
        base_name work_dir w.
Proof. split; reflexivity. Qed.

(** *** The files of others *)



End RunFacts.


(* ===================================================================== *)
(** ** The pipeline never reads its log *)
(* ===================================================================== *)

Section LogFacts.

Context {File : Type}.
Local Open Scope pipeline_scope.

Variable engine : Command → gmap string File → EngineResult File.
Variable remove_denied : string → gmap string File → bool.

Local Abbreviation M := (M File).

(** [appends m]: run after a log [l], the computation [m] does what it
    does on an empty log, and adds its events to [l]. *)
Local Abbreviation appends m :=
  (∀ (d : gmap string File) (l : list Event),
     m (mkWorld d l) =
       ((m (mkWorld d [])).1,
        mkWorld (fs (m (mkWorld d [])).2) (l ++ log (m (mkWorld d [])).2))).

Lemma appends_ret {A} (a : A) : appends (ret (File := File) a).
Proof. intros d l. unfold ret. simpl. by rewrite (right_id_L [] (++)). Qed.

Lemma appends_raise {A} (e : Exn) : appends (raise (File := File) (A := A) e).
Proof. intros d l. unfold raise. simpl. by rewrite (right_id_L [] (++)). Qed.

Lemma appends_emit (e : Event) : appends (emit (File := File) e).
Proof. intros d l. by unfold emit. Qed.

Lemma appends_bind {A B} (m : M A) (k : A → M B) :
  appends m → (∀ a, appends (k a)) → appends (bind m k).
Proof.
  intros Hm Hk d l. unfold bind. rewrite (Hm d l).
  destruct (m (mkWorld d [])) as [[a | e] [d1 l1]]; simpl; [| done].
  rewrite (Hk a d1 (l ++ l1)), (Hk a d1 l1). simpl. by rewrite (assoc_L (++)).
Qed.

Lemma appends_try_except {A} (body : M A) caught (handler : Exn → M A) :
  appends body → (∀ e, appends (handler e)) →
  appends (try_except body caught handler).
Proof.
  intros Hm Hk d l. unfold try_except. rewrite (Hm d l).
  destruct (body (mkWorld d [])) as [[a | e] [d1 l1]]; simpl; [done |].
  destruct (caught e); [| done].
  rewrite (Hk e d1 (l ++ l1)), (Hk e d1 l1). simpl. by rewrite (assoc_L (++)).
Qed.

Lemma appends_os_path_exists path : appends (os_path_exists (File := File) path).
Proof. intros d l. unfold os_path_exists. simpl. by rewrite (right_id_L [] (++)). Qed.

Lemma appends_os_rename src dst : appends (os_rename (File := File) src dst).
Proof.
  intros d l. unfold os_rename. simpl.
  destruct (d !! src); simpl; by rewrite ?(right_id_L [] (++)).
Qed.

Lemma appends_os_remove path : appends (os_remove remove_denied path).
Proof.
  intros d l. unfold os_remove. simpl.
  destruct (d !! path); simpl; [| by rewrite (right_id_L [] (++))].
  destruct (remove_denied path d); simpl; by rewrite ?(right_id_L [] (++)).
Qed.

Lemma appends_subprocess_run c : appends (subprocess_run engine c).
Proof.
  intros d l. unfold subprocess_run. simpl. by destruct (engine c d) as [f | [f |]].
Qed.

Lemma appends_for_each {A} (xs : list A) (body : A → M unit) :
  (∀ x, appends (body x)) → appends (for_each xs body).
Proof.
  intros Hbody. induction xs as [| x xs IH]; simpl.
  - apply appends_ret.
  - apply appends_bind; [apply Hbody | by intros _].
Qed.

(** The steps of the proof that a script only appends to its log. *)
Ltac appends_step :=
  first
    [ apply appends_ret
    | apply appends_raise
    | apply appends_emit
    | apply appends_os_path_exists
    | apply appends_os_rename
    | apply appends_os_remove
    | apply appends_subprocess_run
    | apply appends_bind; [| intros ?]
    | apply appends_try_except; [| intros ?]
    | apply appends_for_each; intros ?
    | match goal with
      | |- ∀ d l, (if ?b then _ else _) _ = _ => destruct b
      | |- ∀ d l, (match ?o with Some _ => _ | None => _ end) _ = _ => destruct o
      end ].

Lemma appends_run_ffmpeg c d : appends (run_ffmpeg engine c d).
Proof. unfold run_ffmpeg, print. do 12 (try appends_step). Qed.

Lemma appends_step3_add_noise i o r v rv vv :
  appends (step3_add_noise engine i o r v rv vv).
Proof.
  unfold step3_add_noise, add_vinyl, print.
  do 40 (try first [apply appends_run_ffmpeg | appends_step]).
Qed.

Lemma appends_cleanup_intermediate_files keep files :
  appends (cleanup_intermediate_files remove_denied keep files).
Proof. unfold cleanup_intermediate_files, print. do 20 (try appends_step). Qed.

(** A run of [process_single_file] never reads the log: after any log
    it does what it does on an empty one, and appends its events. *)
Lemma appends_process_single_file i o (t p : float) r v (rv vv : float) n cf sk
    keep b wd :
  appends (process_single_file engine remove_denied i o t p r v rv vv n cf sk
             keep b wd).
Proof.
  unfold process_single_file, step1_change_tempo, step2_change_pitch,
    step4_apply_eq, step5_create_loop, print.
  do 80 (try first [ apply appends_run_ffmpeg | apply appends_step3_add_noise
                   | apply appends_cleanup_intermediate_files | appends_step ]).
Qed.

Lemma appends_music_folder_batch args audio_files :
  appends (music_folder_batch engine remove_denied args audio_files).
Proof.
  assert (∀ files n, appends (batch_loop engine remove_denied args files n)) as Hloop.
  { induction files as [| audio_file rest IH]; intros n; simpl.
    - apply appends_ret.
    - apply appends_bind; [apply appends_process_single_file | intros r; apply IH]. }
  unfold music_folder_batch, print. destruct audio_files as [| audio_file rest].
  - do 4 (try appends_step).
  - do 6 (try first [apply Hloop | appends_step]).
Qed.

(** So a part of [main] that is written in the pipeline's monad may be
    run on the log of any world: the events that it adds are those that
    [within] adds to the transcript. *)
Lemma within_appends {A} (m : M A) (s : Script.Session File (Line + Event)) l :
  appends m →
  within m s =
    let run := m (mkWorld (Script.disk s) l) in
    (match run.1 with
     | Returned a => Script.Value a
     | Raised e => Script.Thrown e
     end,
     Script.mkSession (fs run.2)
       (Script.transcript s ++ (inr <$> drop (length l) (log run.2)))).
Proof.
  intros Hm. cbv zeta. rewrite (Hm (Script.disk s) l). unfold within.
  destruct (m (mkWorld (Script.disk s) [])) as [r w]. simpl.
  by rewrite drop_app_length.
Qed.

End LogFacts.

(* ===================================================================== *)
(** ** [main] of process_audio.py *)
(* ===================================================================== *)

Section MainFacts.

Context {File : Type}.

Variable engine : Command → gmap string File → EngineResult File.
Variable remove_denied : string → gmap string File → bool.
Variable ffmpeg_version : option Z.
Variable music_dir_exists : bool.
Variable audio_files : list PurePath.t.

Local Abbreviation script :=
  (main engine remove_denied ffmpeg_version music_dir_exists audio_files).
Local Abbreviation Session := (Script.Session File (Line + Event)).

Implicit Types (s : Session) (args : CommandLine).

(** A call of [main] for a single file that exists, with FFmpeg in
    place: the run of the file's job decides how the script ends. *)
Lemma main_single_file args s input :
  check_ffmpeg ffmpeg_version = true →
  args_music_folder args = false →
  truthy_str (args_input args) = Some input →
  is_Some (Script.disk s !! input) →
  script args s =
    let run := process_job engine remove_denied (single_file_job args input)
                 (mkWorld (Script.disk s) []) in
    let events := Script.transcript s ++ [inl LineChecking; inl LineFFmpegFound]
                  ++ (inr <$> log run.2) in
    match run.1 with
    | Returned (true, _) =>
        (Script.Value (), Script.mkSession (fs run.2) (events ++ [inl LineRemember]))
    | Returned (false, _) =>
        (Script.Thrown (SystemExit 1), Script.mkSession (fs run.2) events)
    | Raised e => (Script.Thrown e, Script.mkSession (fs run.2) events)
    end.
Proof.
  intros Hcheck Hfolder Hinput Hexists.
  unfold main, Script.bind, say, Script.emit, Script.raise. simpl.
  rewrite Hcheck, Hfolder, Hinput. simpl.
  unfold within at 1, os_path_exists. simpl.
  rewrite bool_decide_true by done. simpl.
  unfold within, process_job, single_file_job. simpl.
  destruct (process_single_file _ _ _ _ _ _ _ _ _ _ _ _ _ _ _ _ _)
    as [[[[] final] | e] w]; simpl;
    by rewrite ?(right_id_L [] (++)), <- ?(assoc_L (++)).
Qed.

(** X15.  [main] gives up before any work is done when FFmpeg is not
    available, when the music folder is asked for but missing or without
    audio files, when no input is named, and when the named input does not
    exist: it exits with status 1 (status 2 for the missing argument, the
    usage error of the parser), the disk is as it was, and nothing but
    printed lines has been added to the transcript: no engine command, no
    rename and no deletion. *)
Theorem main_aborts_before_any_work args s :
  check_ffmpeg ffmpeg_version = false
  ∨ (args_music_folder args = true
     ∧ (music_dir_exists = false ∨ audio_files = []))
  ∨ (args_music_folder args = false
     ∧ (truthy_str (args_input args) = None
        ∨ ∃ input, truthy_str (args_input args) = Some input
                   ∧ Script.disk s !! input = None)) →
  ∃ code new,
    script args s =
      (Script.Thrown (SystemExit code),
       Script.mkSession (Script.disk s) (Script.transcript s ++ new))
    ∧ Forall is_printed new
    ∧ (code = 1 ∨ code = 2)%Z
    ∧ (code = 2%Z ↔ check_ffmpeg ffmpeg_version = true
                    ∧ args_music_folder args = false
                    ∧ truthy_str (args_input args) = None).
Proof.
  intros Hcase. unfold main, Script.bind, say, Script.emit, Script.raise. simpl.
  destruct (check_ffmpeg ffmpeg_version) eqn:Hcheck; simpl.
  2:{ exists 1%Z, [inl LineChecking; inl LineNoFFmpeg].
      rewrite <- (assoc_L (++)). split_and!; [done | by repeat constructor | by left |].
      split; [done | by intros (? & _)]. }
  destruct Hcase as [? | [(Hfolder & Hmusic) | (Hfolder & Hinput)]]; [done | |];
    rewrite Hfolder.
  - destruct music_dir_exists; simpl.
    + destruct Hmusic as [? | ->]; [done |].
      exists 1%Z, [inl LineChecking; inl LineFFmpegFound; inr (Print MsgNoAudioFiles)].
      unfold within, music_folder_batch, bind, print, emit, raise. simpl.
      rewrite <- !(assoc_L (++)).
      split_and!; [done | by repeat constructor | by left |].
      split; [done | by intros (_ & ? & _)].
    + exists 1%Z, [inl LineChecking; inl LineFFmpegFound; inl LineNoMusicFolder].
      rewrite <- !(assoc_L (++)).
      split_and!; [done | by repeat constructor | by left |].
      split; [done | by intros (_ & ? & _)].
  - destruct Hinput as [Hinput | (input & Hinput & Hmissing)]; rewrite Hinput.
    + exists 2%Z, [inl LineChecking; inl LineFFmpegFound].
      rewrite <- !(assoc_L (++)).
      split_and!; [done | by repeat constructor | by right | done].
    + unfold within at 1, os_path_exists. simpl.
      rewrite bool_decide_false by (rewrite Hmissing; by intros [? ?]). simpl.
      exists 1%Z, [inl LineChecking; inl LineFFmpegFound; inl (LineInputNotFound input)].
      rewrite (right_id_L [] (++)), <- !(assoc_L (++)).
      split_and!; [done | by repeat constructor | by left |].
      split; [done | by intros (_ & _ & ?)].
Qed.

(** X16.  For a single input file that exists, with FFmpeg in place, the
    exit status of [main] is the verdict of the run: [main] returns
    normally exactly when [process_single_file] reports success, it exits
    with status 1 when the run reports failure, and an exception of the
    run leaves [main] as it is; the disk is the one the run left, and the
    events of the run stand in the transcript in their order, between the
    two lines of the FFmpeg check and the closing reminder. *)
Theorem main_exit_status args s input :
  check_ffmpeg ffmpeg_version = true →
  args_music_folder args = false →
  truthy_str (args_input args) = Some input →
  is_Some (Script.disk s !! input) →
  let run := process_job engine remove_denied (single_file_job args input)
               (mkWorld (Script.disk s) []) in
  let result := script args s in
  Script.disk result.2 = fs run.2
  ∧ (result.1 = Script.Value () ↔ ∃ p, run.1 = Returned (true, p))
  ∧ (∀ p, run.1 = Returned (false, p) → result.1 = Script.Thrown (SystemExit 1))
  ∧ (∀ e, run.1 = Raised e → result.1 = Script.Thrown e)
  ∧ ∃ closing,
      Script.transcript result.2 =
        Script.transcript s ++ [inl LineChecking; inl LineFFmpegFound]
        ++ (inr <$> log run.2) ++ closing
      ∧ (closing = [] ∨ closing = [inl LineRemember]).
Proof.
  intros Hcheck Hfolder Hinput Hexists. cbv zeta.
  rewrite (main_single_file args s input) by done. cbv zeta.
  destruct (process_job _ _ _ _) as [[[[] p] | e] w];
    cbn [fst snd Script.disk Script.transcript].
  - split_and!; [done | | done | done |].
    + split; [by eexists | done].
    + exists [inl LineRemember]. rewrite <- !(assoc_L (++)). auto.
  - split_and!; [done | | by intros ? [= <-] | done |].
    + split; [done | by intros [? ?]].
    + exists []. by rewrite !(right_id_L [] (++)); auto.
  - split_and!; [done | | done | by intros ? [= <-] |].
    + split; [done | by intros [? ?]].
    + exists []. by rewrite !(right_id_L [] (++)); auto.
Qed.

(** X17.  When [main] returns normally from a single-file call without
    [-o], the output file [<stem>_processed.wav] is on disk: the default
    name is never one of the run's intermediate names, so neither the
    final rename nor the clean-up can take the file away. *)
Theorem main_leaves_default_output args s input s' :
  args_music_folder args = false →
  truthy_str (args_input args) = Some input →
  args_output args = None →
  script args s = (Script.Value (), s') →
  is_Some (Script.disk s' !! (PurePath.stem (PurePath.Path input) +:+ "_processed.wav")).
Proof.
  intros Hfolder Hinput Houtput Hmain.
  destruct (check_ffmpeg ffmpeg_version) eqn:Hcheck.
  2:{ revert Hmain. unfold main, Script.bind, say, Script.emit, Script.raise.
      simpl. by rewrite Hcheck. }
  destruct (Script.disk s !! input) as [f |] eqn:Hexists.
  2:{ revert Hmain. unfold main, Script.bind, say, Script.emit, Script.raise.
      simpl. rewrite Hcheck, Hfolder, Hinput. simpl.
      unfold within at 1, os_path_exists. simpl.
      by rewrite bool_decide_false by (rewrite Hexists; by intros [? ?]). }
  rewrite (main_single_file args s input) in Hmain by done.
  cbv zeta in Hmain.
  destruct (process_job engine remove_denied (single_file_job args input)
              (mkWorld (Script.disk s) [])) as [r w] eqn:Hrun.
  cbn [fst snd] in Hmain. destruct r as [[[] p] | e]; try done.
  injection Hmain as <-. cbn [Script.disk].
  set (j := single_file_job args input) in *.
  assert (Str.ends_with (Job.output_file j) "_processed.wav") as Hend.
  { unfold j, single_file_job. cbn [Job.output_file]. rewrite Houtput.
    apply StrFacts.ends_with_app, StrFacts.ends_with_refl. }
  apply processed_output_apart, output_file_apart in Hend as [Hclean Hne].
  destruct (process_job_writes_output engine remove_denied j _ _ _ Hclean Hne Hrun)
    as [_ Hout].
  revert Hout. unfold j, single_file_job. cbn [Job.output_file]. by rewrite Houtput.
Qed.

(** X18.  In music-folder mode the exit status does not tell failures:
    when every file's run returns, be it with success or with failure
    (even if all of them fail), [main] prints the summary and returns
    normally; the disk is the one the last run left. *)
Theorem batch_main_returns_despite_failures args s successes w_end :
  check_ffmpeg ffmpeg_version = true →
  args_music_folder args = true →
  music_dir_exists = true →
  audio_files ≠ [] →
  batch_runs engine remove_denied (args_options args) (sorted audio_files)
    (announced audio_files (mkWorld (Script.disk s) [])) successes w_end →
  script args s =
    (Script.Value (),
     Script.mkSession (fs w_end)
       (Script.transcript s ++ [inl LineChecking; inl LineFFmpegFound]
        ++ (inr <$> log w_end)
        ++ [inr (Print (MsgBatchComplete (count_successes successes)
                          (length audio_files)))])).
Proof.
  intros Hcheck Hfolder Hmusic Hfiles Hruns.
  unfold main, Script.bind, say, Script.emit, Script.raise. simpl.
  rewrite Hcheck, Hfolder, Hmusic. simpl. unfold within, music_folder_batch.
  destruct audio_files as [| audio_file rest] eqn:Hfound; [done |].
  rewrite <- Hfound in *. rewrite bind_run.
  unfold print at 1, emit at 1. rewrite bind_run.
  cbn [fs log Script.disk Script.transcript].
  change (mkWorld (Script.disk s) ([] ++ [Print (MsgFound (length audio_files))]))
    with (announced audio_files (mkWorld (Script.disk s) [])).
  assert (batch_loop engine remove_denied (args_options args) (sorted audio_files) 0
            (announced audio_files (mkWorld (Script.disk s) []))
          = (Returned (0 + count_successes successes), w_end)) as ->.
  { apply batch_loop_returns. by exists successes. }
  unfold print, emit. simpl. by rewrite fmap_app, <- !(assoc_L (++)).
Qed.

End MainFacts.


(* ===================================================================== *)
(** ** generate_noise.py *)
(* ===================================================================== *)

Section GenerateNoiseFacts.

Context {File : Type}.

Variable engine : GenerateNoise.Command → gmap string File → EngineResult File.
Variable ffmpeg_version : option Z.

Local Abbreviation Session := (Script.Session File GenerateNoise.Event).

Implicit Types (s : Session) (args : GenerateNoise.Args).









End GenerateNoiseFacts.


(* ===================================================================== *)
(** ** Concrete sessions *)
(* ===================================================================== *)

Module Witnesses.
Import Example Scenario.





(** The first file of the example's music folder. *)
Lemma batch_run_writes_output_witness :
  let run :=
    process_audio_file ffmpeg never_denied cli_args (PurePath.Path "music/a.mp3")
      (boot music_folder) in
  run.1 = Returned (true, Some "music/a_processed.wav")
  ∧ is_Some (fs run.2 !! "music/a_processed.wav").
Proof.
  cbv zeta.
  assert (process_audio_file ffmpeg never_denied cli_args (PurePath.Path "music/a.mp3")
            (boot music_folder)
          = (Returned (true, Some "music/a_processed.wav"),
             (process_audio_file ffmpeg never_denied cli_args
                (PurePath.Path "music/a.mp3") (boot music_folder)).2))
    as Hrun by (vm_compute; reflexivity).
  destruct (batch_run_writes_output ffmpeg never_denied cli_args
              (PurePath.Path "music/a.mp3") (boot music_folder) _ _ Hrun)
    as [_ Hfile].
  split; [vm_compute; reflexivity | exact Hfile].
Defined.

(** Without FFmpeg [main] exits with status 1. *)
Lemma main_aborts_before_any_work_witness :
  check_ffmpeg None = false
  ∧ ∃ new,
      main ffmpeg never_denied None false [] song_args (desk disk)
      = (Script.Thrown (SystemExit 1), Script.mkSession disk new).
Proof.
  split; [reflexivity |].
  destruct (main_aborts_before_any_work ffmpeg never_denied None false []
              song_args (desk disk) (or_introl eq_refl))
    as (code & new & Hrun & _ & _ & Hcode).
  exists new. rewrite Hrun. destruct (decide (code = 2%Z)) as [Heq | Hne].
  - apply Hcode in Heq as [Heq _]. discriminate Heq.
  - revert Hrun. vm_compute. intros [= <- _]. reflexivity.
Defined.

(** [python process_audio.py song.mp3] with both noise assets in place. *)
Lemma main_exit_status_witness :
  let s := desk disk_with_noise in
  check_ffmpeg (Some 0%Z) = true
  ∧ is_Some (Script.disk s !! "song.mp3")
  ∧ (main ffmpeg never_denied (Some 0%Z) false [] song_args s).1 = Script.Value ().
Proof.
  cbv zeta.
  destruct (main_exit_status ffmpeg never_denied (Some 0%Z) false [] song_args
              (desk disk_with_noise) "song.mp3" eq_refl eq_refl eq_refl
              (ex_intro _ (Sound 0) eq_refl))
    as (_ & Hvalue & _).
  split_and!; [reflexivity | by exists (Sound 0) |].
  apply Hvalue. eexists. vm_compute. reflexivity.
Defined.

Lemma main_leaves_default_output_witness :
  let s := desk disk_with_noise in
  let result := main ffmpeg never_denied (Some 0%Z) false [] song_args s in
  result.1 = Script.Value ()
  ∧ is_Some (Script.disk result.2 !! "song_processed.wav").
Proof.
  cbv zeta.
  assert (main ffmpeg never_denied (Some 0%Z) false [] song_args (desk disk_with_noise)
          = (Script.Value (),
             (main ffmpeg never_denied (Some 0%Z) false [] song_args
                (desk disk_with_noise)).2))
    as Hmain by (vm_compute; reflexivity).
  split; [vm_compute; reflexivity |].
  exact (main_leaves_default_output ffmpeg never_denied (Some 0%Z) false []
           song_args (desk disk_with_noise) "song.mp3" _ eq_refl eq_refl eq_refl Hmain).
Defined.

(** [python process_audio.py --music-folder] on the example's folder:
    three files succeed, one fails, and [main] returns normally. *)
Lemma batch_main_returns_despite_failures_witness :
  let result :=
    main ffmpeg never_denied (Some 0%Z) true globbed folder_args (desk music_folder) in
  globbed ≠ []
  ∧ result.1 = Script.Value ()
  ∧ last (Script.transcript result.2) = Some (inr (Print (MsgBatchComplete 3 4))).
Proof.
  cbv zeta.
  assert (globbed ≠ []) as Hne by (vm_compute; discriminate).
  assert (batch_loop ffmpeg never_denied cli_args (sorted globbed) 0
            (announced globbed (mkWorld music_folder []))
          = (Returned 3,
             (batch_loop ffmpeg never_denied cli_args (sorted globbed) 0
                (announced globbed (mkWorld music_folder []))).2))
    as Hloop by (vm_compute; reflexivity).
  apply batch_loop_returns in Hloop as (successes & Hruns & Hcount).
  pose proof (batch_main_returns_despite_failures ffmpeg never_denied (Some 0%Z)
                true globbed folder_args (desk music_folder) successes _
                eq_refl eq_refl eq_refl Hne Hruns) as Hmain.
  split_and!; [exact Hne | by rewrite Hmain |].
  rewrite Hmain. cbn [snd Script.transcript].
  rewrite !(assoc_L (++)), last_snoc. simpl in Hcount. by rewrite <- Hcount.
Defined.


(** The noise stage with both assets in place writes its target. *)
Lemma step3_add_noise_output_witness :
  let w := boot (<[ "song_pitch.wav" := Sound 2 ]> disk_with_noise) in
  let run :=
    step3_add_noise ffmpeg "song_pitch.wav" "song_textured.wav"
      (Some "rain.wav") (Some "vinyl.wav") 0.05 0.03 w in
  run.1 = Returned true
  ∧ is_Some (fs run.2 !! "song_textured.wav").
Proof.
  cbv zeta.
  set (w := boot (<[ "song_pitch.wav" := Sound 2 ]> disk_with_noise)).
  assert (step3_add_noise ffmpeg "song_pitch.wav" "song_textured.wav"
            (Some "rain.wav") (Some "vinyl.wav") 0.05 0.03 w
          = (Returned true,
             (step3_add_noise ffmpeg "song_pitch.wav" "song_textured.wav"
                (Some "rain.wav") (Some "vinyl.wav") 0.05 0.03 w).2))
    as Hrun by (vm_compute; reflexivity).
  split; [vm_compute; reflexivity |].
  destruct (step3_add_noise_output ffmpeg "song_pitch.wav" "song_textured.wav"
              (Some "rain.wav") (Some "vinyl.wav") 0.05 0.03 w _ Hrun)
    as [Hfile | (vinyl & Hvinyl & Hmissing & _)]; [exact Hfile |].
  injection Hvinyl as <-. revert Hmissing. vm_compute. discriminate.
Defined.

(** The noise stage with the defaults of the command line and neither
    asset in place. *)
Lemma step3_add_noise_missing_vinyl_witness :
  let w := boot {[ "song_pitch.wav" := Sound 2 ]} in
  ∃ w',
    step3_add_noise ffmpeg "song_pitch.wav" "song_textured.wav"
      (Some "rain.wav") (Some "vinyl.wav") 0.05 0.03 w = (Returned true, w')
    ∧ fs w' = fs w.
Proof.
  cbv zeta.
  set (w := boot {[ "song_pitch.wav" := Sound 2 ]}).
  assert (fs w !! "vinyl.wav" = None) as Hvinyl by (vm_compute; reflexivity).
  assert (fs w !! "rain.wav" = None) as Hrain by (vm_compute; reflexivity).
  destruct (step3_add_noise_missing_vinyl ffmpeg "song_pitch.wav" "song_textured.wav"
              (Some "rain.wav") (Some "vinyl.wav") 0.05 0.03 w "vinyl.wav"
              eq_refl Hvinyl
              (or_intror (ex_intro _ "rain.wav" (conj eq_refl Hrain))))
    as (w' & Hrun & Hfs & _).
  exists w'. split; [exact Hrun | exact Hfs].
Defined.

(** A run whose pitch command fails deletes nothing. *)
Lemma failed_run_skips_cleanup_witness :
  let run := process_job ffmpeg_without_asetrate never_denied cli_job (boot disk) in
  run.1 = Returned (false, None)
  ∧ grows (λ e, ∀ path, e ≠ Remove path) (boot disk) run.2.
Proof.
  cbv zeta.
  assert (process_job ffmpeg_without_asetrate never_denied cli_job (boot disk)
          = (Returned (false, None),
             (process_job ffmpeg_without_asetrate never_denied cli_job (boot disk)).2))
    as Hrun by (vm_compute; reflexivity).
  destruct (failed_run_skips_cleanup ffmpeg_without_asetrate never_denied cli_job
              (boot disk) _ _ Hrun) as [_ Hgrows].
  split; [vm_compute; reflexivity | exact Hgrows].
Defined.


End Witnesses.


